(** * The plugin scheduling pipeline of the inference endpoint extension

    A shallow embedding of
      - [pkg/epp/scheduling/framework/scheduler_profile.go]
        ([SchedulerProfile], [AddPlugins], [RunCycle] and its four phases), and
      - [pkg/epp/scheduling/scheduler.go] ([Scheduler.Schedule]),
    followed by the properties of the pipeline.

    Conventions.
      - [float64] is the kernel's binary64 type; [+] and [*] on it are the
        IEEE operations, each rounded on its own (no fused multiply-add), and
        no algebraic law of the reals is used anywhere.
      - A Go [map] is a [gmap]; a slice is a [list] ([nil] and the empty slice
        are both [[]], the code only ever takes [len] of them).
      - Plugins are opaque to the pipeline.  A plugin method is a function of
        its arguments and of the plugins' own mutable state, which it may
        change; the pipeline threads that state through every call.
      - Logging is not modelled.  A latency sample is modelled by its labels. *)

From Stdlib Require Import Floats ZArith.
From stdpp Require Import gmap strings list fin_maps.

Abbreviation float64 := PrimFloat.float.

(** [float64(n)] for a Go [int]: the nearest binary64, ties to even. *)
Definition float64_of_int (n : Z) : float64 :=
  SF2Prim (binary_normalize prec emax n 0 false).

(** ** Errors *)

(** Modelled from the spec: the error classes of [errutil] (the package is
    not part of the sources at hand); section 7 names [Internal],
    [Configuration] and [Cancelled]. *)
Inductive ErrCode : Set := Internal | Configuration | Cancelled.

(** A Go [error] value.  [ErrutilError] is the struct [errutil.Error{Code, Msg}];
    [Errorf text] is what [fmt.Errorf] builds from a format without [%w];
    [ErrorfWrap text wrapped] what it builds from a format that ends in [%w]:
    [text] is the formatted message before the verb, [wrapped] the error
    given for it, which [errors.Unwrap] gives back. *)
Inductive error : Type :=
| ErrutilError (Code : ErrCode) (Msg : string)
| Errorf (text : string)
| ErrorfWrap (text : string) (wrapped : error).

(** The class of an error value itself: only [errutil.Error] carries one. *)
Definition errorCode (e : error) : option ErrCode :=
  match e with
  | ErrutilError c _ => Some c
  | Errorf _ => None
  | ErrorfWrap _ _ => None
  end.

(** ** Metrics *)

(** Modelled from the spec: the plugin-type labels of the latency metric
    (constants declared outside the sources at hand), one for each kind of
    plugin call the sources record. *)
Inductive PluginType : Set :=
| ProfilePickerType | FilterPluginType | ScorerPluginType
| PickerPluginType | PostCyclePluginType | PostResponsePluginType.

Inductive MetricSample : Set :=
| PluginProcessingLatency (pluginType : PluginType) (pluginName : string)
| SchedulerE2ELatency.

Section Scheduling.

(** Pods are compared as map keys; nothing else is known of them here. *)
Context {Pod : Type} `{Countable Pod}.
Context {PodMetrics LLMRequest LLMResponse PluginState : Type}.

(** [types.ToSchedulerPodMetrics], and [String()] of a request (used by [%s]). *)
Variable ToSchedulerPodMetrics : list PodMetrics -> list Pod.
Variable LLMRequest_String : LLMRequest -> string.

(** Modelled from the spec: [types.Result], the selected target pod. *)
Record Result : Type := { TargetPod : Pod }.

(** [types.ScoredPod{Pod, Score}], as [runPickerPlugin] builds it. *)
Record ScoredPod : Type := { ScoredPod_Pod : Pod; ScoredPod_Score : float64 }.

(** Modelled from the spec: [types.SchedulingContext], the request (or the
    response) and the pods snapshot. *)
Record SchedulingContext : Type :=
  { Req : option LLMRequest; Resp : option LLMResponse; PodsSnapshot : list Pod }.

Definition NewSchedulingContext (req : option LLMRequest) (resp : option LLMResponse)
    (pods : list Pod) : SchedulingContext :=
  {| Req := req; Resp := resp; PodsSnapshot := pods |}.

(** ** Plugins *)

(** A plugin method call: it reads and may update the plugins' own state. *)
Definition call (A : Type) : Type := PluginState -> A * PluginState.

Definition FilterFn : Type := SchedulingContext -> list Pod -> call (list Pod).
Definition ScoreFn : Type := SchedulingContext -> list Pod -> call (gmap Pod float64).
Definition PickFn : Type := SchedulingContext -> list ScoredPod -> call (option Result).
Definition PostCycleFn : Type := SchedulingContext -> option Result -> call unit.
Definition PostResponseFn : Type := SchedulingContext -> option Pod -> call unit.

(** A plugin object: its [Name()] and, for each role interface, the method
    it has when it implements that interface ([plugin.(Filter)] succeeds
    exactly when [asFilter] is [Some]).  The interfaces are declared outside
    the sources at hand; the methods are typed as the sources call them. *)
Record Object : Type :=
  { Name : string;
    asFilter : option FilterFn;
    asScorer : option ScoreFn;
    asPicker : option PickFn;
    asPostCycle : option PostCycleFn;
    asPostResponse : option PostResponseFn }.

(** Values of the role interfaces, as the profile stores them. *)
Record Filter : Type := { Filter_Name : string; Filter_Filter : FilterFn }.
Record Picker : Type := { Picker_Name : string; Picker_Pick : PickFn }.
Record PostCycle : Type := { PostCycle_Name : string; PostCycle_PostCycle : PostCycleFn }.
Record PostResponse : Type :=
  { PostResponse_Name : string; PostResponse_PostResponse : PostResponseFn }.

(** A value of interface type [Scorer]: its [Score] method and the object
    behind it, which [AddPlugins] asks for its other roles. *)
Record Scorer : Type := { Scorer_Score : ScoreFn; Scorer_object : Object }.

(** Modelled from the spec: [WeightedScorer] (declared outside the sources
    at hand), a [Scorer] paired with an integer weight.  The sources use its
    field [Scorer], the methods [Name] and [Score] promoted from it, and
    [Weight], which they convert with [float64(...)]. *)
Record WeightedScorer : Type := { WS_Scorer : Scorer; WS_weight : Z }.

Definition NewWeightedScorer (scorer : Scorer) (weight : Z) : WeightedScorer :=
  {| WS_Scorer := scorer; WS_weight := weight |}.
Definition WS_Name (s : WeightedScorer) : string := Name (Scorer_object (WS_Scorer s)).
Definition WS_Score (s : WeightedScorer) : ScoreFn := Scorer_Score (WS_Scorer s).
Definition Weight (s : WeightedScorer) : Z := WS_weight s.

(** What [AddPlugins] is given: a [*WeightedScorer], or any other object. *)
Inductive Plugin : Type :=
| PluginWeightedScorer (weightedScorer : WeightedScorer)
| PluginObject (object : Object).

(** ** SchedulerProfile *)

Record SchedulerProfile : Type :=
  { filters : list Filter;
    scorers : list WeightedScorer;
    picker : option Picker;
    postCyclePlugins : list PostCycle;
    PostResponsePlugins : list PostResponse }.

Definition NewSchedulerProfile : SchedulerProfile :=
  {| filters := []; scorers := []; picker := None;
     postCyclePlugins := []; PostResponsePlugins := [] |}.

Definition WithFilters (p : SchedulerProfile) (fs : list Filter) : SchedulerProfile :=
  {| filters := fs; scorers := scorers p; picker := picker p;
     postCyclePlugins := postCyclePlugins p; PostResponsePlugins := PostResponsePlugins p |}.

Definition WithScorers (p : SchedulerProfile) (ss : list WeightedScorer) : SchedulerProfile :=
  {| filters := filters p; scorers := ss; picker := picker p;
     postCyclePlugins := postCyclePlugins p; PostResponsePlugins := PostResponsePlugins p |}.

(** [WithPicker] takes an interface value, which may be [nil]. *)
Definition WithPicker (p : SchedulerProfile) (pk : option Picker) : SchedulerProfile :=
  {| filters := filters p; scorers := scorers p; picker := pk;
     postCyclePlugins := postCyclePlugins p; PostResponsePlugins := PostResponsePlugins p |}.

Definition WithPostCyclePlugins (p : SchedulerProfile) (ps : list PostCycle) : SchedulerProfile :=
  {| filters := filters p; scorers := scorers p; picker := picker p;
     postCyclePlugins := ps; PostResponsePlugins := PostResponsePlugins p |}.

(** The assignment [p.PostResponsePlugins = ps] (the source has no builder
    for this field). *)
Definition setPostResponsePlugins (p : SchedulerProfile) (ps : list PostResponse) : SchedulerProfile :=
  {| filters := filters p; scorers := scorers p; picker := picker p;
     postCyclePlugins := postCyclePlugins p; PostResponsePlugins := ps |}.

(** *** AddPlugins *)

Definition errScorerWithoutWeight (name : string) : error :=
  Errorf ("failed to register scorer '" +:+ name +:+
          "' without a weight. follow function documentation to register a scorer").

Definition errPickerAlreadySet (name registered : string) : error :=
  Errorf ("failed to set '" +:+ name +:+
          "' as picker, already have a registered picker plugin '" +:+ registered +:+ "'").

(** Lines 84-89: a [*WeightedScorer] is appended to the scorers and
    unwrapped; any other object implementing [Scorer] is refused. *)
Definition registerScorer (p : SchedulerProfile) (plugin : Plugin)
    : error + SchedulerProfile * Object :=
  match plugin with
  | PluginWeightedScorer weightedScorer =>
      inr (WithScorers p (scorers p ++ [weightedScorer]),
           Scorer_object (WS_Scorer weightedScorer))
  | PluginObject o =>
      match asScorer o with
      | Some _ => inl (errScorerWithoutWeight (Name o))
      | None => inr (p, o)
      end
  end.

(** Lines 90-92. *)
Definition registerFilter (p : SchedulerProfile) (o : Object) : SchedulerProfile :=
  match asFilter o with
  | Some f => WithFilters p (filters p ++ [{| Filter_Name := Name o; Filter_Filter := f |}])
  | None => p
  end.

(** Lines 93-98. *)
Definition registerPicker (p : SchedulerProfile) (o : Object) : error + SchedulerProfile :=
  match asPicker o with
  | Some f =>
      match picker p with
      | Some registered => inl (errPickerAlreadySet (Name o) (Picker_Name registered))
      | None => inr (WithPicker p (Some {| Picker_Name := Name o; Picker_Pick := f |}))
      end
  | None => inr p
  end.

(** Lines 99-101. *)
Definition registerPostCycle (p : SchedulerProfile) (o : Object) : SchedulerProfile :=
  match asPostCycle o with
  | Some f =>
      WithPostCyclePlugins p
        (postCyclePlugins p ++ [{| PostCycle_Name := Name o; PostCycle_PostCycle := f |}])
  | None => p
  end.

(** Lines 102-104. *)
Definition registerPostResponse (p : SchedulerProfile) (o : Object) : SchedulerProfile :=
  match asPostResponse o with
  | Some f =>
      setPostResponsePlugins p
        (PostResponsePlugins p ++
           [{| PostResponse_Name := Name o; PostResponse_PostResponse := f |}])
  | None => p
  end.

(** One pass through the body of the loop of [AddPlugins].  The profile is
    updated in place, so what was registered before a [return] stays. *)
Definition addPlugin (p : SchedulerProfile) (plugin : Plugin)
    : SchedulerProfile * option error :=
  match registerScorer p plugin with
  | inl e => (p, Some e)
  | inr (p1, o) =>
      let p2 := registerFilter p1 o in
      match registerPicker p2 o with
      | inl e => (p2, Some e)
      | inr p3 => (registerPostResponse (registerPostCycle p3 o) o, None)
      end
  end.

(** [AddPlugins]: the profile after the call, and the returned error. *)
Fixpoint AddPlugins (p : SchedulerProfile) (pluginObjects : list Plugin)
    : SchedulerProfile * option error :=
  match pluginObjects with
  | [] => (p, None)
  | plugin :: rest =>
      match addPlugin p plugin with
      | (p', Some e) => (p', Some e)
      | (p', None) => AddPlugins p' rest
      end
  end.

(** ** The world outside the pipeline *)

(** What a scheduling call can touch besides its arguments: the plugins'
    state, the metrics sink, and the datastore.  The datastore is shared with
    concurrent writers: [writers n] is what they do to its content at the
    [n]-th point where the scheduler yields to a plugin, [steps] counts these
    points, and [podGetAllCalls] counts the calls of [PodGetAll]. *)
Record World : Type :=
  { plugins : PluginState;
    metricsLog : list MetricSample;
    datastore : list PodMetrics;
    podGetAllCalls : nat;
    writers : nat -> list PodMetrics -> list PodMetrics;
    steps : nat }.

(** How a computation ends: with a value, in a Go run-time panic, or, for the
    unbounded loop of [Schedule], still running when the fuel is spent. *)
Inductive outcome (A : Type) : Type :=
| Returns (a : A) (w : World)
| Panics (w : World)
| OutOfFuel.
Arguments Returns {A} a w.
Arguments Panics {A} w.
Arguments OutOfFuel {A}.

Definition M (A : Type) : Type := World -> outcome A.

#[global] Instance M_ret : MRet M := fun A a w => Returns a w.
#[global] Instance M_bind : MBind M := fun A B f c w =>
  match c w with
  | Returns a w' => f a w'
  | Panics w' => Panics w'
  | OutOfFuel => OutOfFuel
  end.

(** A nil dereference. *)
Definition panic {A : Type} : M A := fun w => Panics w.

(** The concurrent writers take their turn. *)
Definition interfere (w : World) : World :=
  {| plugins := plugins w; metricsLog := metricsLog w;
     datastore := writers w (steps w) (datastore w);
     podGetAllCalls := podGetAllCalls w;
     writers := writers w; steps := S (steps w) |}.

Definition setPlugins (st : PluginState) (w : World) : World :=
  {| plugins := st; metricsLog := metricsLog w; datastore := datastore w;
     podGetAllCalls := podGetAllCalls w; writers := writers w; steps := steps w |}.

Definition record (sample : MetricSample) (w : World) : World :=
  {| plugins := plugins w; metricsLog := metricsLog w ++ [sample];
     datastore := datastore w; podGetAllCalls := podGetAllCalls w;
     writers := writers w; steps := steps w |}.

(** [s.datastore.PodGetAll()]. *)
Definition PodGetAll : M (list PodMetrics) := fun w =>
  Returns (datastore w)
    {| plugins := plugins w; metricsLog := metricsLog w; datastore := datastore w;
       podGetAllCalls := S (podGetAllCalls w); writers := writers w; steps := steps w |}.

(** The pattern around every plugin call:
    [before := time.Now(); x := plugin.Method(...);
     metrics.RecordSchedulerPluginProcessingLatency(type, plugin.Name(), time.Since(before))]. *)
Definition invoke {A : Type} (pluginType : PluginType) (name : string) (method : call A) : M A :=
  fun w =>
    let w1 := interfere w in
    let '(a, st) := method (plugins w1) in
    Returns a (record (PluginProcessingLatency pluginType name) (setPlugins st w1)).

(** ** RunCycle *)

(** The loop of [runFilterPlugins], from the pods filtered so far. *)
Fixpoint filterLoop (fs : list Filter) (ctx : SchedulingContext) (filteredPods : list Pod)
    : M (list Pod) :=
  match fs with
  | [] => mret filteredPods
  | filter :: fs' =>
      filteredPods' ← invoke FilterPluginType (Filter_Name filter)
                        (Filter_Filter filter ctx filteredPods);
      if (length filteredPods' =? 0)%nat then mret filteredPods'
      else filterLoop fs' ctx filteredPods'
  end.

Definition runFilterPlugins (p : SchedulerProfile) (ctx : SchedulingContext) : M (list Pod) :=
  filterLoop (filters p) ctx (PodsSnapshot ctx).

(** [weightedScorePerPod[pod] += score * float64(weight)]; reading a key the
    map does not have gives the zero value. *)
Definition addWeighted (weight : Z) (pod : Pod) (score : float64)
    (weightedScorePerPod : gmap Pod float64) : gmap Pod float64 :=
  <[pod := (default 0%float (weightedScorePerPod !! pod) + score * float64_of_int weight)%float]>
    weightedScorePerPod.

(** [for pod, score := range scores { ... }]: each entry of [scores] once. *)
Definition addScores (weight : Z) (scores weightedScorePerPod : gmap Pod float64)
    : gmap Pod float64 :=
  map_fold (addWeighted weight) weightedScorePerPod scores.

(** The loop over the scorers. *)
Fixpoint scorerLoop (ss : list WeightedScorer) (ctx : SchedulingContext) (pods : list Pod)
    (weightedScorePerPod : gmap Pod float64) : M (gmap Pod float64) :=
  match ss with
  | [] => mret weightedScorePerPod
  | scorer :: ss' =>
      scores ← invoke ScorerPluginType (WS_Name scorer) (WS_Score scorer ctx pods);
      scorerLoop ss' ctx pods (addScores (Weight scorer) scores weightedScorePerPod)
  end.

(** Lines 150-153: every pod starts at 0. *)
Definition initScores (pods : list Pod) : gmap Pod float64 :=
  fold_left (fun m pod => <[pod := 0%float]> m) pods ∅.

Definition runScorerPlugins (p : SchedulerProfile) (ctx : SchedulingContext) (pods : list Pod)
    : M (gmap Pod float64) :=
  scorerLoop (scorers p) ctx pods (initScores pods).

(** Go leaves the order in which [range] visits a map open.  The order in
    which the scores are visited is a parameter, known only to visit each
    entry once. *)
Variable rangeScores : gmap Pod float64 -> list (Pod * float64).
Hypothesis rangeScores_entries : forall m, rangeScores m ≡ₚ map_to_list m.

Definition toScoredPods (weightedScorePerPod : gmap Pod float64) : list ScoredPod :=
  map (fun '(pod, score) => {| ScoredPod_Pod := pod; ScoredPod_Score := score |})
      (rangeScores weightedScorePerPod).

(** [p.picker.Pick] on a nil picker panics. *)
Definition runPickerPlugin (p : SchedulerProfile) (ctx : SchedulingContext)
    (weightedScorePerPod : gmap Pod float64) : M (option Result) :=
  let scoredPods := toScoredPods weightedScorePerPod in
  match picker p with
  | None => panic
  | Some pk => invoke PickerPluginType (Picker_Name pk) (Picker_Pick pk ctx scoredPods)
  end.

Fixpoint postCycleLoop (ps : list PostCycle) (ctx : SchedulingContext) (res : option Result)
    : M unit :=
  match ps with
  | [] => mret tt
  | plugin :: ps' =>
      invoke PostCyclePluginType (PostCycle_Name plugin) (PostCycle_PostCycle plugin ctx res);;
      postCycleLoop ps' ctx res
  end.

Definition runPostCyclePlugins (p : SchedulerProfile) (ctx : SchedulingContext)
    (res : option Result) : M unit :=
  postCycleLoop (postCyclePlugins p) ctx res.

Definition errNoPods : error :=
  ErrutilError Internal "no pods available for the given request".

(** [RunCycle]: the pair [(result, err)] it returns. *)
Definition RunCycle (p : SchedulerProfile) (ctx : SchedulingContext)
    : M (option Result * option error) :=
  pods ← runFilterPlugins p ctx;
  if (length pods =? 0)%nat then mret (None, Some errNoPods)
  else
    weightedScorePerPod ← runScorerPlugins p ctx pods;
    result ← runPickerPlugin p ctx weightedScorePerPod;
    runPostCyclePlugins p ctx result;;
    mret (result, None).

(** ** Scheduler *)

Definition ProfilePickFn : Type :=
  LLMRequest -> gmap string SchedulerProfile -> gmap string (option Result) ->
  call (gmap string SchedulerProfile).

Record ProfilePicker : Type :=
  { ProfilePicker_Name : string; ProfilePicker_Pick : ProfilePickFn }.

(** The scheduler's [datastore] field refers to the datastore of the world. *)
Record Scheduler : Type :=
  { profilePicker : ProfilePicker;
    profiles : gmap string SchedulerProfile }.

Record SchedulerConfig : Type :=
  { config_profilePicker : ProfilePicker;
    config_profiles : gmap string SchedulerProfile }.

Definition NewSchedulerConfig (pp : ProfilePicker) (ps : gmap string SchedulerProfile)
    : SchedulerConfig :=
  {| config_profilePicker := pp; config_profiles := ps |}.

Definition NewSchedulerWithConfig (config : SchedulerConfig) : Scheduler :=
  {| profilePicker := config_profilePicker config; profiles := config_profiles config |}.

(** The order in which [range] visits the picked profiles, as for the scores. *)
Variable rangeProfiles : gmap string SchedulerProfile -> list (string * SchedulerProfile).
Hypothesis rangeProfiles_entries : forall m, rangeProfiles m ≡ₚ map_to_list m.

Definition errRunProfiles (err : error) : error :=
  ErrorfWrap "failed to run all required scheduling profiles - " err.

Definition errNoProfileRan (req : LLMRequest) : error :=
  Errorf ("failed to run any SchedulingProfile for the request - " +:+ LLMRequest_String req).

(** Lines 121-129, over the entries in the order [range] visits them:
    [inl e] when the loop leaves [Schedule] with [return nil, e], otherwise
    the results map after the loop. *)
Fixpoint runProfiles (entries : list (string * SchedulerProfile)) (sCtx : SchedulingContext)
    (profileExecutionResults : gmap string (option Result))
    : M (error + gmap string (option Result)) :=
  match entries with
  | [] => mret (inr profileExecutionResults)
  | (name, profile) :: rest =>
      r ← RunCycle profile sCtx;
      match r.2 with
      | Some err => mret (inl (errRunProfiles err))
      | None => runProfiles rest sCtx (<[name := r.1]> profileExecutionResults)
      end
  end.

(** How one pass through the body of the outer [for] ends. *)
Inductive iteration : Type :=
| Break
| Continue (profileExecutionResults : gmap string (option Result))
| Return (err : error).

(** Lines 114-129. *)
Definition scheduleIteration (s : Scheduler) (req : LLMRequest) (sCtx : SchedulingContext)
    (profileExecutionResults : gmap string (option Result)) : M iteration :=
  picked ← invoke ProfilePickerType (ProfilePicker_Name (profilePicker s))
             (ProfilePicker_Pick (profilePicker s) req (profiles s) profileExecutionResults);
  if (size picked =? 0)%nat then mret Break
  else
    r ← runProfiles (rangeProfiles picked) sCtx profileExecutionResults;
    mret (match r with
          | inl err => Return err
          | inr profileExecutionResults' => Continue profileExecutionResults'
          end).

(** Lines 132-136. *)
Definition scheduleEnd (req : LLMRequest) (profileExecutionResults : gmap string (option Result))
    : option (gmap string (option Result)) * option error :=
  if (size profileExecutionResults =? 0)%nat then (None, Some (errNoProfileRan req))
  else (Some profileExecutionResults, None).

(** The outer [for]; the profile picker decides when it ends, so the model
    runs it on fuel. *)
Fixpoint scheduleLoop (fuel : nat) (s : Scheduler) (req : LLMRequest) (sCtx : SchedulingContext)
    (profileExecutionResults : gmap string (option Result))
    : M (option (gmap string (option Result)) * option error) :=
  match fuel with
  | O => fun _ => OutOfFuel
  | S fuel' =>
      it ← scheduleIteration s req sCtx profileExecutionResults;
      match it with
      | Break => mret (scheduleEnd req profileExecutionResults)
      | Return err => mret (None, Some err)
      | Continue profileExecutionResults' =>
          scheduleLoop fuel' s req sCtx profileExecutionResults'
      end
  end.

(** [defer f()]: [f] runs when the body returns and when it panics. *)
Definition deferred {A : Type} (f : World -> World) (body : M A) : M A := fun w =>
  match body w with
  | Returns a w' => Returns a (f w')
  | Panics w' => Panics (f w')
  | OutOfFuel => OutOfFuel
  end.

(** Lines 108-111: the snapshot and the scheduling context. *)
Definition snapshot (req : LLMRequest) : M SchedulingContext :=
  pods ← PodGetAll;
  mret (NewSchedulingContext (Some req) None (ToSchedulerPodMetrics pods)).

(** [Schedule]: the pair (results, err) it returns. *)
Definition Schedule (fuel : nat) (s : Scheduler) (req : LLMRequest)
    : M (option (gmap string (option Result)) * option error) :=
  deferred (record SchedulerE2ELatency)
    (sCtx ← snapshot req;
     scheduleLoop fuel s req sCtx ∅).

(** ** Vocabulary of the properties *)

(** *** Registration, in the words of the specification *)

(** The object a plugin is classified by: a weighted scorer is unwrapped. *)
Definition unwrap (plugin : Plugin) : Object :=
  match plugin with
  | PluginWeightedScorer weightedScorer => Scorer_object (WS_Scorer weightedScorer)
  | PluginObject o => o
  end.

(** The role values of an object: [Some] when it implements the role. *)
Definition toFilter (o : Object) : option Filter :=
  (fun f => {| Filter_Name := Name o; Filter_Filter := f |}) <$> asFilter o.
Definition toPicker (o : Object) : option Picker :=
  (fun f => {| Picker_Name := Name o; Picker_Pick := f |}) <$> asPicker o.
Definition toPostCycle (o : Object) : option PostCycle :=
  (fun f => {| PostCycle_Name := Name o; PostCycle_PostCycle := f |}) <$> asPostCycle o.
Definition toPostResponse (o : Object) : option PostResponse :=
  (fun f => {| PostResponse_Name := Name o; PostResponse_PostResponse := f |})
    <$> asPostResponse o.
Definition toWeightedScorer (plugin : Plugin) : option WeightedScorer :=
  match plugin with
  | PluginWeightedScorer weightedScorer => Some weightedScorer
  | PluginObject _ => None
  end.

(** A scorer without a weight: an object that implements [Scorer] and is
    not a [*WeightedScorer]. *)
Definition scorerWithoutWeight (plugin : Plugin) : bool :=
  match plugin with
  | PluginWeightedScorer _ => false
  | PluginObject o => match asScorer o with Some _ => true | None => false end
  end.

(** The pickers among the plugins, and whether the profile has one. *)
Definition pickersOf (pluginObjects : list Plugin) : list Picker :=
  omap (fun plugin => toPicker (unwrap plugin)) pluginObjects.
Definition pickerCount (p : SchedulerProfile) : nat :=
  match picker p with Some _ => 1 | None => 0 end.

(** The profile with every plugin registered to every role it implements. *)
Definition registerAll (p : SchedulerProfile) (pluginObjects : list Plugin) : SchedulerProfile :=
  {| filters := filters p ++ omap (fun plugin => toFilter (unwrap plugin)) pluginObjects;
     scorers := scorers p ++ omap toWeightedScorer pluginObjects;
     picker := match picker p with
               | Some pk => Some pk
               | None => head (pickersOf pluginObjects)
               end;
     postCyclePlugins :=
       postCyclePlugins p ++ omap (fun plugin => toPostCycle (unwrap plugin)) pluginObjects;
     PostResponsePlugins :=
       PostResponsePlugins p ++
         omap (fun plugin => toPostResponse (unwrap plugin)) pluginObjects |}.

(** What a refused plugin has registered by the time [AddPlugins] returns:
    nothing for a scorer without weight; for a second picker, the weighted
    scorer it came in and its filter role. *)
Definition registerPartly (p : SchedulerProfile) (plugin : Plugin) : SchedulerProfile :=
  if scorerWithoutWeight plugin then p
  else
    {| filters := filters p ++ option_list (toFilter (unwrap plugin));
       scorers := scorers p ++ option_list (toWeightedScorer plugin);
       picker := picker p;
       postCyclePlugins := postCyclePlugins p;
       PostResponsePlugins := PostResponsePlugins p |}.

(** *** Cycles *)

(** The world a plugin call leaves, given the plugin state it returns. *)
Definition afterCall (pluginType : PluginType) (name : string) (st : PluginState) (w : World)
    : World :=
  record (PluginProcessingLatency pluginType name) (setPlugins st (interfere w)).

Definition filterSample (f : Filter) : MetricSample :=
  PluginProcessingLatency FilterPluginType (Filter_Name f).


(** What each scorer of the list returns in a cycle, with its weight, from
    the plugin state the first one is called in. *)
Fixpoint scorerOutputs (ss : list WeightedScorer) (ctx : SchedulingContext) (pods : list Pod)
    (st : PluginState) : list (gmap Pod float64 * Z) :=
  match ss with
  | [] => []
  | scorer :: ss' =>
      let '(scores, st') := WS_Score scorer ctx pods st in
      (scores, Weight scorer) :: scorerOutputs ss' ctx pods st'
  end.

(** The sum, in the order of the scorers, of score times weight over the
    scorers that returned a score for the pod; the others add nothing. *)
Definition weightedSum (pod : Pod) (outputs : list (gmap Pod float64 * Z)) : float64 :=
  fold_left (fun total '(scores, weight) =>
               match scores !! pod with
               | Some score => (total + score * float64_of_int weight)%float
               | None => total
               end) outputs 0%float.

(** Some scorer returned a score for the pod. *)
Definition scoredBySome (pod : Pod) (outputs : list (gmap Pod float64 * Z)) : bool :=
  existsb (fun '(scores, _) => bool_decide (is_Some (scores !! pod))) outputs.

(** The entry of a pod after the scorers, from its entry before them. *)
Definition accumulate (start : option float64) (pod : Pod)
    (outputs : list (gmap Pod float64 * Z)) : option float64 :=
  fold_left (fun entry '(scores, weight) =>
               match scores !! pod with
               | Some score => Some (default 0 entry + score * float64_of_int weight)%float
               | None => entry
               end) outputs start.

(** *** Scheduling calls *)

(** The world and the scheduling context after lines 108-111. *)
Definition entryWorld (w : World) : World :=
  {| plugins := plugins w; metricsLog := metricsLog w; datastore := datastore w;
     podGetAllCalls := S (podGetAllCalls w); writers := writers w; steps := steps w |}.
Definition entryContext (req : LLMRequest) (w : World) : SchedulingContext :=
  NewSchedulingContext (Some req) None (ToSchedulerPodMetrics (datastore w)).

(** The cycles that succeed when the entries are run from a world, in the
    order they run in, up to the first cycle that does not. *)
Fixpoint cyclesRun (entries : list (string * SchedulerProfile)) (sCtx : SchedulingContext)
    (w : World) : list (string * option Result) :=
  match entries with
  | [] => []
  | (name, profile) :: rest =>
      match RunCycle profile sCtx w with
      | Returns (r, None) w1 => (name, r) :: cyclesRun rest sCtx w1
      | _ => []
      end
  end.

(** The profiles picked in an iteration, in the order they are run in. *)
Definition pickedEntries (s : Scheduler) (req : LLMRequest)
    (results : gmap string (option Result)) (w : World) : list (string * SchedulerProfile) :=
  rangeProfiles
    (ProfilePicker_Pick (profilePicker s) req (profiles s) results (plugins w)).1.

(** The world in which the first of them is run. *)
Definition afterPick (s : Scheduler) (req : LLMRequest)
    (results : gmap string (option Result)) (w : World) : World :=
  afterCall ProfilePickerType (ProfilePicker_Name (profilePicker s))
    (ProfilePicker_Pick (profilePicker s) req (profiles s) results (plugins w)).2 w.

(** The loop state after [n] iterations that went on to a next one. *)
Fixpoint afterIterations (n : nat) (s : Scheduler) (req : LLMRequest) (sCtx : SchedulingContext)
    (results : gmap string (option Result)) (w : World)
    : option (gmap string (option Result) * World) :=
  match n with
  | O => Some (results, w)
  | S n' =>
      match scheduleIteration s req sCtx results w with
      | Returns (Continue results') w' => afterIterations n' s req sCtx results' w'
      | _ => None
      end
  end.

(** The cycles that succeeded in these [n] iterations, oldest first. *)
Fixpoint scheduleCycles (n : nat) (s : Scheduler) (req : LLMRequest) (sCtx : SchedulingContext)
    (results : gmap string (option Result)) (w : World) : list (string * option Result) :=
  match n with
  | O => []
  | S n' =>
      match scheduleIteration s req sCtx results w with
      | Returns (Continue results') w' =>
          cyclesRun (pickedEntries s req results w) sCtx (afterPick s req results w)
            ++ scheduleCycles n' s req sCtx results' w'
      | _ => []
      end
  end.

(** The results map after the results of some cycles are stored in it. *)
Definition storeAll (results : gmap string (option Result))
    (cycles : list (string * option Result)) : gmap string (option Result) :=
  fold_left (fun m '(name, r) => <[name := r]> m) cycles results.

(** The result of the most recent of the cycles run under a name. *)
Definition lastRun (name : string) (cycles : list (string * option Result))
    : option (option Result) :=
  fold_left (fun found '(name', r) => if decide (name' = name) then Some r else found)
            cycles None.

(** How a computation ended, leaving the world aside. *)
Inductive verdict (A : Type) : Type :=
| Returned (a : A)
| Panicked
| Unfinished.

Definition verdictOf {A : Type} (o : outcome A) : verdict A :=
  match o with
  | Returns a _ => Returned _ a
  | Panics _ => Panicked _
  | OutOfFuel => Unfinished _
  end.

(** Two outcomes that end the same way, with the same value and the same
    plugin state. *)
Definition sameOutcome {A : Type} (o1 o2 : outcome A) : Prop :=
  match o1, o2 with
  | Returns a1 w1, Returns a2 w2 => a1 = a2 /\ plugins w1 = plugins w2
  | Panics w1, Panics w2 => plugins w1 = plugins w2
  | OutOfFuel, OutOfFuel => True
  | _, _ => False
  end.

(** A computation that does not look at the datastore: from two worlds
    with the same plugin state it ends the same way, and it leaves the count
    of [PodGetAll] calls as it is. *)
Definition isolated {A : Type} (c : M A) : Prop :=
  (forall w1 w2, plugins w1 = plugins w2 -> sameOutcome (c w1) (c w2)) /\
  (forall w, match c w with
             | Returns _ w' => podGetAllCalls w' = podGetAllCalls w
             | Panics w' => podGetAllCalls w' = podGetAllCalls w
             | OutOfFuel => True
             end).

(** ** The response path *)

(** [pod.GetPod().NamespacedName.String()], the text a pod is looked up by. *)
Variable Pod_String : Pod -> string.

(** The nil request, which [OnResponse] hands to the profile picker. *)
Variable nilRequest : LLMRequest.

(** Lines 146-152 of [scheduler.go]: the first pod of that name, or nil. *)
Fixpoint findTargetPod (pods : list Pod) (targetPodName : string) : option Pod :=
  match pods with
  | [] => None
  | pod :: rest =>
      if String.eqb (Pod_String pod) targetPodName then Some pod
      else findTargetPod rest targetPodName
  end.

(** A plugin call around which no latency is recorded. *)
Definition invokeUnrecorded {A : Type} (method : call A) : M A := fun w =>
  let w1 := interfere w in
  let '(a, st) := method (plugins w1) in
  Returns a (setPlugins st w1).

Fixpoint postResponseLoop (ps : list PostResponse) (ctx : SchedulingContext)
    (targetPod : option Pod) : M unit :=
  match ps with
  | [] => mret tt
  | plugin :: ps' =>
      invoke PostResponsePluginType (PostResponse_Name plugin)
        (PostResponse_PostResponse plugin ctx targetPod);;
      postResponseLoop ps' ctx targetPod
  end.

Definition runPostResponsePlugins (ctx : SchedulingContext) (targetPod : option Pod)
    (profile : SchedulerProfile) : M unit :=
  postResponseLoop (PostResponsePlugins profile) ctx targetPod.

(** Lines 159-161, over the picked profiles in the order [range] visits them. *)
Fixpoint responseLoop (entries : list (string * SchedulerProfile)) (sCtx : SchedulingContext)
    (targetPod : option Pod) : M unit :=
  match entries with
  | [] => mret tt
  | (_, profile) :: rest =>
      runPostResponsePlugins sCtx targetPod profile;;
      responseLoop rest sCtx targetPod
  end.

(** [OnResponse]; it returns nothing. *)
Definition OnResponse (s : Scheduler) (resp : LLMResponse) (targetPodName : string) : M unit :=
  podMetrics ← PodGetAll;
  let pods := ToSchedulerPodMetrics podMetrics in
  let targetPod := findTargetPod pods targetPodName in
  let sCtx := NewSchedulingContext None (Some resp) pods in
  picked ← invokeUnrecorded
             (ProfilePicker_Pick (profilePicker s) nilRequest (profiles s) ∅);
  responseLoop (rangeProfiles picked) sCtx targetPod.

(** ** The default configuration *)

(** [filter.DecisionTreeFilter], as [NewScheduler] builds it: a filter and
    up to three successors. *)
#[warnings="-register-all"]
Inductive DecisionTreeFilter : Type :=
  { Current : Filter;
    NextOnSuccess : option DecisionTreeFilter;
    NextOnFailure : option DecisionTreeFilter;
    NextOnSuccessOrFailure : option DecisionTreeFilter }.

(** The plugins [NewScheduler] gets from constructors outside the sources at
    hand, and the filter a decision tree is (its methods are outside too). *)
Variable NewLoraAffinityFilter NewLeastQueueFilter NewLeastKVCacheFilter : Filter.
Variable NewLowQueueFilter NewSheddableCapacityFilter : Filter.
Variable decisionTree : DecisionTreeFilter -> Filter.
Variable RandomPicker : Picker.
Variable NewAllProfilesPicker : ProfilePicker.

Definition leaf (f : Filter) : DecisionTreeFilter :=
  {| Current := f; NextOnSuccess := None; NextOnFailure := None;
     NextOnSuccessOrFailure := None |}.

Definition thenAlways (f : Filter) (next : DecisionTreeFilter) : DecisionTreeFilter :=
  {| Current := f; NextOnSuccess := None; NextOnFailure := None;
     NextOnSuccessOrFailure := Some next |}.

(** Lines 45-65. *)
Definition lowLatencyFilter : DecisionTreeFilter :=
  {| Current := NewLowQueueFilter;
     NextOnSuccess :=
       Some (thenAlways NewLoraAffinityFilter
               (thenAlways NewLeastQueueFilter (leaf NewLeastKVCacheFilter)));
     NextOnFailure :=
       Some (thenAlways NewLeastQueueFilter
               (thenAlways NewLoraAffinityFilter (leaf NewLeastKVCacheFilter)));
     NextOnSuccessOrFailure := None |}.

(** Lines 67-69. *)
Definition defaultProfile : SchedulerProfile :=
  WithPicker
    (WithFilters NewSchedulerProfile [NewSheddableCapacityFilter; decisionTree lowLatencyFilter])
    (Some RandomPicker).

Definition NewScheduler : Scheduler :=
  NewSchedulerWithConfig
    (NewSchedulerConfig NewAllProfilesPicker {[ "default" := defaultProfile ]}).

(** *** Latency samples *)

Definition scorerSample (scorer : WeightedScorer) : MetricSample :=
  PluginProcessingLatency ScorerPluginType (WS_Name scorer).
Definition postResponseSample (plugin : PostResponse) : MetricSample :=
  PluginProcessingLatency PostResponsePluginType (PostResponse_Name plugin).

(** A sample of a plugin call, as opposed to the end-to-end sample. *)
Definition isPluginSample (sample : MetricSample) : bool :=
  match sample with
  | PluginProcessingLatency _ _ => true
  | SchedulerE2ELatency => false
  end.

(** The samples of the post-response plugins of some profiles, in order. *)
Definition responseSamples (entries : list (string * SchedulerProfile)) : list MetricSample :=
  concat (map (fun entry => map postResponseSample (PostResponsePlugins entry.2)) entries).

(** The world in which [OnResponse] runs the first post-response plugin. *)
Definition responseWorld (s : Scheduler) (w : World) : World :=
  setPlugins
    (ProfilePicker_Pick (profilePicker s) nilRequest (profiles s) ∅ (plugins w)).2
    (interfere (entryWorld w)).

(** The profiles [OnResponse] visits. *)
Definition responseEntries (s : Scheduler) (w : World) : list (string * SchedulerProfile) :=
  rangeProfiles (ProfilePicker_Pick (profilePicker s) nilRequest (profiles s) ∅ (plugins w)).1.

(** A computation that, when it ends, has added latency samples of plugin
    calls to the metrics and nothing else. *)
Definition addsPluginSamples {A : Type} (c : M A) : Prop :=
  forall w,
    match c w with
    | Returns _ w' =>
        exists samples, metricsLog w' = metricsLog w ++ samples /\
                        forallb isPluginSample samples = true
    | Panics w' =>
        exists samples, metricsLog w' = metricsLog w ++ samples /\
                        forallb isPluginSample samples = true
    | OutOfFuel => True
    end.

(** What the loop of [Schedule] comes to when it ends in its first or in
    its second iteration. *)
Definition firstPass (s : Scheduler) (req : LLMRequest) (sCtx : SchedulingContext) (w : World)
    : outcome (option (gmap string (option Result)) * option error) :=
  if (size (ProfilePicker_Pick (profilePicker s) req (profiles s) ∅ (plugins w)).1 =? 0)%nat
  then Returns (scheduleEnd req ∅) (afterPick s req ∅ w)
  else
    match runProfiles (pickedEntries s req ∅ w) sCtx ∅ (afterPick s req ∅ w) with
    | Returns (inl err) w1 => Returns (None, Some err) w1
    | Returns (inr results) w1 => Returns (scheduleEnd req results) (afterPick s req results w1)
    | Panics w1 => Panics w1
    | OutOfFuel => OutOfFuel
    end.

(** The post-response plugins of some profiles, in the order they are
    called in, and the plugin state their calls leave. *)
Definition postResponsesOf (entries : list (string * SchedulerProfile)) : list PostResponse :=
  concat (map (fun entry => PostResponsePlugins entry.2) entries).
Definition afterPostResponses (ps : list PostResponse) (ctx : SchedulingContext)
    (targetPod : option Pod) (st : PluginState) : PluginState :=
  fold_left (fun st plugin => (PostResponse_PostResponse plugin ctx targetPod st).2) ps st.

End Scheduling.


Arguments Returns {PodMetrics PluginState A} a w.
Arguments Panics {PodMetrics PluginState A} w.
Arguments OutOfFuel {PodMetrics PluginState A}.
Arguments Returned {A} a.
Arguments Panicked {A}.
Arguments Unfinished {A}.

(** * The apply configuration of a pool object reference

    The generated builder of package [v1alpha2].  [apiv1alpha2.Group],
    [Kind] and [ObjectName] are string types declared outside the sources at
    hand; a field that is a nil pointer is [None]. *)

Module V1alpha2.

Record PoolObjectReferenceApplyConfiguration : Type :=
  { Group : option string; Kind : option string; Name : option string }.

Definition PoolObjectReference : PoolObjectReferenceApplyConfiguration :=
  {| Group := None; Kind := None; Name := None |}.

Definition WithGroup (b : PoolObjectReferenceApplyConfiguration) (value : string)
    : PoolObjectReferenceApplyConfiguration :=
  {| Group := Some value; Kind := Kind b; Name := Name b |}.

Definition WithKind (b : PoolObjectReferenceApplyConfiguration) (value : string)
    : PoolObjectReferenceApplyConfiguration :=
  {| Group := Group b; Kind := Some value; Name := Name b |}.

Definition WithName (b : PoolObjectReferenceApplyConfiguration) (value : string)
    : PoolObjectReferenceApplyConfiguration :=
  {| Group := Group b; Kind := Kind b; Name := Some value |}.

(** A chain of "With" calls, as data: the calls in the order they are made. *)
Inductive Call : Type :=
| CallWithGroup (value : string)
| CallWithKind (value : string)
| CallWithName (value : string).

Definition perform (b : PoolObjectReferenceApplyConfiguration) (c : Call)
    : PoolObjectReferenceApplyConfiguration :=
  match c with
  | CallWithGroup value => WithGroup b value
  | CallWithKind value => WithKind b value
  | CallWithName value => WithName b value
  end.

Definition chain (b : PoolObjectReferenceApplyConfiguration) (calls : list Call)
    : PoolObjectReferenceApplyConfiguration :=
  fold_left perform calls b.

(** The values the calls of a chain give for each field, in order. *)
Definition groupsOf (calls : list Call) : list string :=
  omap (fun c => match c with CallWithGroup value => Some value | _ => None end) calls.
Definition kindsOf (calls : list Call) : list string :=
  omap (fun c => match c with CallWithKind value => Some value | _ => None end) calls.
Definition namesOf (calls : list Call) : list string :=
  omap (fun c => match c with CallWithName value => Some value | _ => None end) calls.

(** The last of some values, or what was there before. *)
Definition lastOr (before : option string) (values : list string) : option string :=
  match last values with
  | Some value => Some value
  | None => before
  end.

End V1alpha2.

(** * A concrete instance

    Pods and pod metrics are numbers, requests are strings, and the plugins'
    state is a journal in which every plugin method notes its call. *)

Module Demo.

Definition Journal : Type := list string.

Abbreviation DObject := (@Object nat _ _ string unit Journal).
Abbreviation DFilter := (@Filter nat string unit Journal).
Abbreviation DScorer := (@Scorer nat _ _ string unit Journal).
Abbreviation DWeightedScorer := (@WeightedScorer nat _ _ string unit Journal).
Abbreviation DPicker := (@Picker nat string unit Journal).
Abbreviation DPostCycle := (@PostCycle nat string unit Journal).
Abbreviation DPlugin := (@Plugin nat _ _ string unit Journal).
Abbreviation DProfile := (@SchedulerProfile nat _ _ string unit Journal).
Abbreviation DProfilePicker := (@ProfilePicker nat _ _ string unit Journal).
Abbreviation DScheduler := (@Scheduler nat _ _ string unit Journal).
Abbreviation DContext := (@SchedulingContext nat string unit).
Abbreviation DWorld := (@World nat Journal).

(** A method that returns [a] and notes its call. *)
Definition noting {A : Type} (name : string) (a : A) : Journal -> A * Journal :=
  fun st => (a, st ++ [name]).

(** How often a name is noted in the journal. *)
Definition noted (name : string) (st : Journal) : nat :=
  length (filter (fun x => x = name) st).

(** Filters: one keeps every pod, one drops every pod. *)
Definition keepAll : DFilter :=
  {| Filter_Name := "keep-all"; Filter_Filter := fun _ pods => noting "keep-all" pods |}.
Definition dropAll : DFilter :=
  {| Filter_Name := "drop-all"; Filter_Filter := fun _ _ => noting "drop-all" [] |}.

(** Scorers: one scores every pod it is given 1.5, one scores pod 99 only. *)
Definition flatScores (pods : list nat) : gmap nat float64 :=
  list_to_map (map (fun pod => (pod, 1.5%float)) pods).
Definition flatObject : DObject :=
  {| Name := "flat"; asFilter := None;
     asScorer := Some (fun _ pods => noting "flat" (flatScores pods));
     asPicker := None; asPostCycle := None; asPostResponse := None |}.
Definition flat : DScorer :=
  {| Scorer_Score := fun _ pods => noting "flat" (flatScores pods);
     Scorer_object := flatObject |}.
Definition strayObject : DObject :=
  {| Name := "stray"; asFilter := None;
     asScorer := Some (fun _ _ => noting "stray" {[ 99%nat := 5%float ]});
     asPicker := None; asPostCycle := None; asPostResponse := None |}.
Definition stray : DScorer :=
  {| Scorer_Score := fun _ _ => noting "stray" {[ 99%nat := 5%float ]};
     Scorer_object := strayObject |}.

(** Pickers: the first pod of the highest score; the pod whose turn it is,
    by the number of earlier picks; and one that returns nil. *)
Fixpoint best (scoredPods : list (@ScoredPod nat)) : option (@ScoredPod nat) :=
  match scoredPods with
  | [] => None
  | sp :: rest =>
      match best rest with
      | Some sp' =>
          if PrimFloat.ltb (ScoredPod_Score sp) (ScoredPod_Score sp') then Some sp' else Some sp
      | None => Some sp
      end
  end.
Definition target (sp : @ScoredPod nat) : @Result nat := {| TargetPod := ScoredPod_Pod sp |}.
Definition maxPicker : DPicker :=
  {| Picker_Name := "max";
     Picker_Pick := fun _ scoredPods => noting "max" (target <$> best scoredPods) |}.
Definition turnPicker : DPicker :=
  {| Picker_Name := "turn";
     Picker_Pick := fun _ scoredPods st =>
       (target <$> scoredPods !! noted "turn" st, st ++ ["turn"]) |}.

Definition observer : DPostCycle :=
  {| PostCycle_Name := "observer"; PostCycle_PostCycle := fun _ _ => noting "observer" tt |}.

(** An object that is a filter and a picker at once, as a scorer too. *)
Definition allRounder : DObject :=
  {| Name := "all-rounder";
     asFilter := Some (Filter_Filter keepAll);
     asScorer := Some (fun _ pods => noting "all-rounder" (flatScores pods));
     asPicker := Some (Picker_Pick maxPicker);
     asPostCycle := None; asPostResponse := None |}.
Definition allRounderScorer : DScorer :=
  {| Scorer_Score := fun _ pods => noting "all-rounder" (flatScores pods);
     Scorer_object := allRounder |}.
Definition maxObject : DObject :=
  {| Name := "max"; asFilter := None; asScorer := None;
     asPicker := Some (Picker_Pick maxPicker);
     asPostCycle := None; asPostResponse := None |}.

(** Profiles. *)
Definition plainProfile : DProfile :=
  WithPostCyclePlugins
    (WithPicker
       (WithScorers (WithFilters NewSchedulerProfile [keepAll]) [NewWeightedScorer flat 2])
       (Some maxPicker))
    [observer].
Definition strayProfile : DProfile :=
  WithPicker
    (WithScorers (WithFilters NewSchedulerProfile [keepAll]) [NewWeightedScorer stray 1])
    (Some maxPicker).
Definition dropProfile : DProfile :=
  WithPicker
    (WithScorers (WithFilters NewSchedulerProfile [keepAll; dropAll; keepAll])
       [NewWeightedScorer flat 2])
    (Some maxPicker).
Definition turnProfile : DProfile :=
  WithPicker
    (WithScorers (WithFilters NewSchedulerProfile [keepAll]) [NewWeightedScorer flat 2])
    (Some turnPicker).

(** Profile pickers: all profiles once; all profiles twice; and one that
    picks, once, a profile under a name of its own. *)
Definition allOnce : DProfilePicker :=
  {| ProfilePicker_Name := "all-once";
     ProfilePicker_Pick := fun _ all results =>
       noting "all-once" (if (size results =? 0)%nat then all else ∅) |}.
Definition allTwice : DProfilePicker :=
  {| ProfilePicker_Name := "all-twice";
     ProfilePicker_Pick := fun _ all _ st =>
       (if (noted "all-twice" st <? 2)%nat then all else ∅, st ++ ["all-twice"]) |}.
Definition ghostPicker : DProfilePicker :=
  {| ProfilePicker_Name := "ghost";
     ProfilePicker_Pick := fun _ _ results =>
       noting "ghost" (if (size results =? 0)%nat then {[ "ghost" := plainProfile ]} else ∅) |}.

Definition scheduler (pp : DProfilePicker) (profile : DProfile) : DScheduler :=
  NewSchedulerWithConfig (NewSchedulerConfig pp {[ "default" := profile ]}).
Definition ghostScheduler : DScheduler :=
  NewSchedulerWithConfig (NewSchedulerConfig ghostPicker ∅).
Definition idleScheduler : DScheduler :=
  NewSchedulerWithConfig (NewSchedulerConfig allOnce ∅).

(** Worlds: a datastore with pods 1 and 2 that nobody writes to, and the
    same datastore with a writer that removes every pod at each step. *)
Definition quiet : DWorld :=
  {| plugins := []; metricsLog := []; datastore := [1; 2]%nat; podGetAllCalls := 0;
     writers := fun _ pods => pods; steps := 0 |}.
Definition churning : DWorld :=
  {| plugins := []; metricsLog := []; datastore := [1; 2]%nat; podGetAllCalls := 0;
     writers := fun _ _ => []; steps := 0 |}.

Definition context (pods : list nat) : DContext := NewSchedulingContext (Some "req") None pods.

(** The calls, with the pod metrics taken as the pods, the request as its
    own text, and the maps visited in the order of [map_to_list]. *)
Definition runCycle (p : DProfile) (ctx : DContext) : @M nat Journal _ :=
  RunCycle map_to_list p ctx.
Definition schedule (fuel : nat) (s : DScheduler) (req : string) : @M nat Journal _ :=
  Schedule (fun pods => pods) (fun req => req) map_to_list map_to_list fuel s req.

(** A profile that was given no picker. *)
Definition bareProfile : DProfile :=
  WithScorers (WithFilters NewSchedulerProfile [keepAll]) [NewWeightedScorer flat 2].

(** A decision tree standing for its first filter. *)
Definition firstOf (tree : @DecisionTreeFilter nat string unit Journal) : DFilter :=
  Current tree.


(** Another order in which [range] may visit a map: that of [map_to_list],
    backwards. *)
Definition backwards {K : Type} `{Countable K} {A : Type} (m : gmap K A) : list (K * A) :=
  reverse (map_to_list m).

(** A profile picker that picks, once, two profiles under names of its own:
    one whose filters drop every pod, and the plain one. *)
Definition ghostPairPicker : DProfilePicker :=
  {| ProfilePicker_Name := "ghost-pair";
     ProfilePicker_Pick := fun _ _ results =>
       noting "ghost-pair"
         (if (size results =? 0)%nat
          then {[ "ghost" := plainProfile; "wraith" := dropProfile ]} else ∅) |}.
Definition ghostPairScheduler : DScheduler :=
  NewSchedulerWithConfig (NewSchedulerConfig ghostPairPicker ∅).

End Demo.

(** * Properties *)

Section Properties.

Context {Pod : Type} `{Countable Pod}.
Context {PodMetrics LLMRequest LLMResponse PluginState : Type}.

Implicit Types (w : @World PodMetrics PluginState).
Implicit Types (p : @SchedulerProfile Pod _ _ LLMRequest LLMResponse PluginState).
Implicit Types (plugin : @Plugin Pod _ _ LLMRequest LLMResponse PluginState).
Implicit Types (pluginObjects : list (@Plugin Pod _ _ LLMRequest LLMResponse PluginState)).
Implicit Types (ctx sCtx : @SchedulingContext Pod LLMRequest LLMResponse).
Implicit Types (pods : list Pod).

Variable rangeScores : gmap Pod float64 -> list (Pod * float64).
Hypothesis rangeScores_entries : forall m, rangeScores m ≡ₚ map_to_list m.

(** ** AddPlugins *)

Lemma profile_eq p p' :
  filters p = filters p' -> scorers p = scorers p' -> picker p = picker p' ->
  postCyclePlugins p = postCyclePlugins p' -> PostResponsePlugins p = PostResponsePlugins p' ->
  p = p'.
Proof. destruct p, p'; simpl; intros; subst; reflexivity. Qed.

Lemma registerAll_nil p : registerAll p [] = p.
Proof. apply profile_eq; simpl; rewrite ?app_nil_r; try done. by destruct (picker p). Qed.

(** One accepted plugin: what the pass through the loop body leaves. *)
Lemma addPlugin_accepts p plugin :
  scorerWithoutWeight plugin = false ->
  toPicker (unwrap plugin) = None \/ picker p = None ->
  addPlugin p plugin = (registerAll p [plugin], None).
Proof.
  intros Hw Hp. destruct p as [fs ss pk pcs prs].
  destruct plugin as [[[sc [nm af asc ap apc apr]] wt]|[nm af asc ap apc apr]];
    unfold addPlugin, registerScorer, registerFilter, registerPicker, registerPostCycle,
      registerPostResponse, registerAll, pickersOf, toFilter, toPicker, toPostCycle,
      toPostResponse in *; simpl in *;
    destruct asc; try discriminate;
    destruct af, ap, apc, apr, pk; simpl in *;
    try (destruct Hp; discriminate);
    rewrite ?app_nil_r; reflexivity.
Qed.

Lemma addPlugin_refuses_scorer p plugin :
  scorerWithoutWeight plugin = true ->
  addPlugin p plugin = (p, Some (errScorerWithoutWeight (Name (unwrap plugin)))).
Proof.
  destruct plugin as [ws|o]; simpl; [discriminate|].
  unfold addPlugin, registerScorer. destruct (asScorer o); [reflexivity | discriminate].
Qed.

Lemma addPlugin_refuses_picker p plugin pk registered :
  scorerWithoutWeight plugin = false ->
  toPicker (unwrap plugin) = Some pk -> picker p = Some registered ->
  addPlugin p plugin =
    (registerPartly p plugin,
     Some (errPickerAlreadySet (Name (unwrap plugin)) (Picker_Name registered))).
Proof.
  intros Hw Hpk Hp. destruct p as [fs ss old pcs prs]. simpl in Hp. subst old.
  unfold registerPartly. rewrite Hw.
  destruct plugin as [[[sc [nm af asc ap apc apr]] wt]|[nm af asc ap apc apr]];
    unfold addPlugin, registerScorer, registerFilter, registerPicker, toFilter, toPicker in *;
    simpl in *; destruct asc; try discriminate;
    destruct af, ap; simpl in *; try discriminate; rewrite ?app_nil_r; reflexivity.
Qed.

(** The three ways a pass through the loop body can go. *)
Lemma addPlugin_cases p plugin :
  (scorerWithoutWeight plugin = true /\
   addPlugin p plugin = (p, Some (errScorerWithoutWeight (Name (unwrap plugin))))) \/
  (scorerWithoutWeight plugin = false /\
   exists pk registered, toPicker (unwrap plugin) = Some pk /\ picker p = Some registered /\
     addPlugin p plugin =
       (registerPartly p plugin,
        Some (errPickerAlreadySet (Name (unwrap plugin)) (Picker_Name registered)))) \/
  (scorerWithoutWeight plugin = false /\
   (toPicker (unwrap plugin) = None \/ picker p = None) /\
   addPlugin p plugin = (registerAll p [plugin], None)).
Proof.
  destruct (scorerWithoutWeight plugin) eqn:Hw.
  - left. split; [done|]. by apply addPlugin_refuses_scorer.
  - right. destruct (toPicker (unwrap plugin)) as [pk|] eqn:Hpk.
    + destruct (picker p) as [registered|] eqn:Hp.
      * left. split; [done|]. exists pk, registered. repeat split; try done.
        by apply (addPlugin_refuses_picker p plugin pk).
      * right. split; [done|]. split; [by right|]. apply addPlugin_accepts; auto.
    + right. split; [done|]. split; [by left|]. apply addPlugin_accepts; auto.
Qed.

Lemma registerAll_cons p plugin pluginObjects :
  registerAll (registerAll p [plugin]) pluginObjects = registerAll p (plugin :: pluginObjects).
Proof.
  apply profile_eq; unfold registerAll, pickersOf; simpl.
  - destruct (toFilter (unwrap plugin)); simpl; by rewrite <- ?app_assoc, ?app_nil_r.
  - destruct (toWeightedScorer plugin); simpl; by rewrite <- ?app_assoc, ?app_nil_r.
  - destruct (picker p); [done|]. by destruct (toPicker (unwrap plugin)).
  - destruct (toPostCycle (unwrap plugin)); simpl; by rewrite <- ?app_assoc, ?app_nil_r.
  - destruct (toPostResponse (unwrap plugin)); simpl; by rewrite <- ?app_assoc, ?app_nil_r.
Qed.

Lemma pickerCount_registerAll_one p plugin :
  toPicker (unwrap plugin) = None \/ picker p = None ->
  pickerCount (registerAll p [plugin]) = (pickerCount p + length (pickersOf [plugin]))%nat.
Proof.
  unfold pickerCount, registerAll, pickersOf. simpl.
  destruct (picker p), (toPicker (unwrap plugin)); simpl; intros [?|?]; done.
Qed.

Lemma pickersOf_cons plugin pluginObjects :
  length (pickersOf (plugin :: pluginObjects)) =
  (length (pickersOf [plugin]) + length (pickersOf pluginObjects))%nat.
Proof. unfold pickersOf. simpl. by destruct (toPicker (unwrap plugin)). Qed.

(** [AddPlugins] succeeds exactly on lists without a scorer without weight
    that bring at most one picker in all, counting the one already set. *)
Lemma AddPlugins_succeeds_iff p pluginObjects :
  (AddPlugins p pluginObjects).2 = None <->
  Forall (fun plugin => scorerWithoutWeight plugin = false) pluginObjects /\
  (pickerCount p + length (pickersOf pluginObjects) <= 1)%nat.
Proof.
  revert p. induction pluginObjects as [|plugin rest IH]; intros p.
  - simpl. split; [|done]. intros _. split; [constructor|].
    unfold pickerCount. destruct (picker p); simpl; lia.
  - simpl AddPlugins. rewrite pickersOf_cons.
    destruct (addPlugin_cases p plugin)
      as [[Hw ->]|[[Hw (pk & registered & Hpk & Hp & ->)]|[Hw [Hp ->]]]].
    + simpl. split; [done|]. intros [HF _]. inversion HF; congruence.
    + simpl. split; [done|]. intros [_ Hle].
      unfold pickerCount, pickersOf in Hle. simpl in Hle. rewrite Hp, Hpk in Hle.
      simpl in Hle. lia.
    + rewrite IH, pickerCount_registerAll_one by done.
      rewrite Forall_cons. split; [intros [? ?]|intros [[? ?] ?]]; repeat split; try done; lia.
Qed.

(** On success every plugin is registered in every role it implements. *)
Lemma AddPlugins_registers p pluginObjects :
  (AddPlugins p pluginObjects).2 = None ->
  (AddPlugins p pluginObjects).1 = registerAll p pluginObjects.
Proof.
  revert p. induction pluginObjects as [|plugin rest IH]; intros p.
  - intros _. simpl. by rewrite registerAll_nil.
  - simpl AddPlugins.
    destruct (addPlugin_cases p plugin)
      as [[Hw ->]|[[Hw (pk & registered & Hpk & Hp & ->)]|[Hw [Hp ->]]]]; try done.
    intros Hok. rewrite IH by done. apply registerAll_cons.
Qed.

(** Every error of [AddPlugins] is built by [fmt.Errorf]. *)
Lemma AddPlugins_error_plain p pluginObjects e :
  (AddPlugins p pluginObjects).2 = Some e -> errorCode e = None.
Proof.
  revert p. induction pluginObjects as [|plugin rest IH]; intros p; [done|].
  simpl AddPlugins.
  destruct (addPlugin_cases p plugin)
    as [[Hw ->]|[[Hw (pk & registered & Hpk & Hp & ->)]|[Hw [Hp ->]]]].
  - simpl. by intros [= <-].
  - simpl. by intros [= <-].
  - apply IH.
Qed.

(** C7 (amended).  [AddPlugins] returns an error exactly when the list holds
    a scorer without weight or brings, with the picker already set, more than
    one picker; the error is a plain [fmt.Errorf] error without an error
    class; on success every plugin is registered in every role it implements,
    a weighted scorer being unwrapped for the other roles.  A profile built
    without any picker raises no error, and [WithPicker] replaces the picker
    without one. *)
Theorem AddPlugins_errors_exactly p pluginObjects :
  ((AddPlugins p pluginObjects).2 = None <->
     Forall (fun plugin => scorerWithoutWeight plugin = false) pluginObjects /\
     (pickerCount p + length (pickersOf pluginObjects) <= 1)%nat)
  /\ (forall e, (AddPlugins p pluginObjects).2 = Some e -> errorCode e = None)
  /\ ((AddPlugins p pluginObjects).2 = None ->
      (AddPlugins p pluginObjects).1 = registerAll p pluginObjects)
  /\ (Forall (fun plugin => scorerWithoutWeight plugin = false) pluginObjects ->
      picker p = None -> pickersOf pluginObjects = [] ->
      (AddPlugins p pluginObjects).2 = None /\ picker (AddPlugins p pluginObjects).1 = None)
  /\ (forall pk, (AddPlugins (WithPicker p pk) []).2 = None /\ picker (WithPicker p pk) = pk).
Proof.
  split; [apply AddPlugins_succeeds_iff|].
  split; [apply AddPlugins_error_plain|].
  split; [apply AddPlugins_registers|].
  split; [|done].
  intros HF Hp Hnil.
  assert ((AddPlugins p pluginObjects).2 = None) as Hok.
  { apply AddPlugins_succeeds_iff. split; [done|].
    unfold pickerCount. rewrite Hp, Hnil. simpl. lia. }
  split; [done|]. rewrite AddPlugins_registers by done.
  simpl. by rewrite Hp, Hnil.
Qed.

(** C10.  [AddPlugins] is not atomic: when it returns an error, it stopped at
    some plugin of the list; the plugins before it are registered in all
    their roles, and the refused plugin has left what it registered before
    the failing check (for a second picker: the weighted scorer it came in,
    and its filter role).  Nothing is undone. *)
Theorem AddPlugins_not_atomic p pluginObjects e :
  (AddPlugins p pluginObjects).2 = Some e ->
  exists (pre : list Plugin) plugin (post : list Plugin),
    pluginObjects = pre ++ plugin :: post /\
    AddPlugins p pre = (registerAll p pre, None) /\
    AddPlugins p pluginObjects = (registerPartly (registerAll p pre) plugin, Some e) /\
    (forall weightedScorer, plugin = PluginWeightedScorer weightedScorer ->
       scorers (AddPlugins p pluginObjects).1 =
       scorers p ++ omap toWeightedScorer pre ++ [weightedScorer]).
Proof.
  revert p. induction pluginObjects as [|plugin rest IH]; intros p; [done|].
  simpl AddPlugins.
  destruct (addPlugin_cases p plugin)
    as [[Hw Hadd]|[[Hw (pk & registered & Hpk & Hp & Hadd)]|[Hw [Hp Hadd]]]];
    rewrite Hadd.
  - simpl. intros [= <-]. exists [], plugin, rest. rewrite registerAll_nil.
    unfold registerPartly. rewrite Hw. simpl. repeat split; try done.
    intros ws ->. done.
  - simpl. intros [= <-]. exists [], plugin, rest. rewrite registerAll_nil.
    simpl. repeat split; try done.
    intros ws ->. unfold registerPartly. simpl. done.
  - intros He. destruct (IH _ He) as (pre & bad & post & -> & Hpre & Hall & Hws).
    exists (plugin :: pre), bad, post. rewrite registerAll_cons in *.
    split; [done|]. split; [by simpl; rewrite Hadd|]. split; [done|].
    intros ws Hbad. rewrite (Hws ws Hbad). simpl.
    destruct (toWeightedScorer plugin); simpl; by rewrite <- ?app_assoc, ?app_nil_r.
Qed.

(** ** The monad *)

Lemma bind_Returns {A B : Type} (c : M A) (f : A -> M B) w a w1 :
  c w = Returns a w1 -> (c ≫= f) w = f a w1.
Proof. unfold mbind, M_bind. by intros ->. Qed.

Lemma invoke_Returns {A : Type} (pluginType : PluginType) (name : string) (method : call A) w :
  invoke pluginType name method w =
  Returns (method (plugins w)).1 (afterCall pluginType name (method (plugins w)).2 w).
Proof. unfold invoke, afterCall. simpl. by destruct (method (plugins w)). Qed.

Lemma bind_invoke {A B : Type} (pluginType : PluginType) (name : string) (method : call A)
    (f : A -> M B) w :
  (invoke pluginType name method ≫= f) w =
  f (method (plugins w)).1 (afterCall pluginType name (method (plugins w)).2 w).
Proof. apply bind_Returns, invoke_Returns. Qed.

(** ** The filter phase *)

Lemma filterLoop_Returns (fs : list Filter) ctx pods w :
  exists pods' w', filterLoop fs ctx pods w = Returns pods' w'.
Proof.
  revert pods w. induction fs as [|f fs IH]; intros pods w; simpl.
  - by eexists _, _.
  - rewrite bind_invoke.
    destruct (length _ =? 0)%nat; [by eexists _, _|apply IH].
Qed.

(** A prefix of the filters that did not end on an empty set was run in
    full, and the loop goes on with the filters after it. *)
Lemma filterLoop_app (fs rest : list Filter) ctx pods w pods1 w1 :
  filterLoop fs ctx pods w = Returns pods1 w1 ->
  fs = [] \/ pods1 <> [] ->
  filterLoop (fs ++ rest) ctx pods w = filterLoop rest ctx pods1 w1 /\
  metricsLog w1 = metricsLog w ++ map filterSample fs.
Proof.
  revert pods w. induction fs as [|f fs IH]; intros pods w Hrun Hne.
  - simpl in *. injection Hrun as -> ->. by rewrite app_nil_r.
  - destruct Hne as [?|Hne]; [done|]. simpl in *.
    rewrite bind_invoke in Hrun |- *.
    destruct (length _ =? 0)%nat eqn:Hlen.
    + injection Hrun as <- <-. apply Nat.eqb_eq, length_zero_iff_nil in Hlen. done.
    + destruct (IH _ _ Hrun (or_intror Hne)) as [-> ->]. split; [done|].
      unfold afterCall, filterSample. simpl. by rewrite <- app_assoc.
Qed.

(** The filters run over a shrinking set when each returns a part of what
    it is given. *)
Lemma filterLoop_subset (fs : list Filter) ctx pods w pods' w' :
  (forall f pods0 st, f ∈ fs -> (Filter_Filter f ctx pods0 st).1 ⊆ pods0) ->
  filterLoop fs ctx pods w = Returns pods' w' -> pods' ⊆ pods.
Proof.
  revert pods w. induction fs as [|f fs IH]; intros pods w Hsub Hrun; simpl in *.
  - by injection Hrun as -> ->.
  - rewrite bind_invoke in Hrun.
    assert ((Filter_Filter f ctx pods (plugins w)).1 ⊆ pods) as H1
      by (apply Hsub; left).
    destruct (length _ =? 0)%nat.
    + by injection Hrun as <- <-.
    + etrans; [|exact H1]. eapply IH; [|exact Hrun].
      intros f' pods0 st Hin. apply Hsub. by right.
Qed.

(** ** The post-cycle phase *)

Lemma postCycleLoop_Returns (ps : list PostCycle) ctx (res : option Result) w :
  exists w', postCycleLoop ps ctx res w = Returns tt w'.
Proof.
  revert w. induction ps as [|plugin ps IH]; intros w; simpl.
  - by eexists.
  - rewrite bind_invoke. apply IH.
Qed.



(** ** The score phase *)

Lemma initScores_lookup pods pod :
  initScores pods !! pod = if decide (pod ∈ pods) then Some 0%float else None.
Proof.
  unfold initScores.
  assert (forall (m : gmap Pod float64),
            fold_left (fun m pod => <[pod := 0%float]> m) pods m !! pod =
            if decide (pod ∈ pods) then Some 0%float else m !! pod) as Hgen.
  { induction pods as [|x pods IH]; intros m.
    - destruct (decide (pod ∈ [])) as [Hin|]; [by apply elem_of_nil in Hin|done].
    - simpl fold_left. rewrite IH.
      destruct (decide (pod ∈ pods)) as [Hin|Hin];
        destruct (decide (pod ∈ x :: pods)) as [Hin'|Hin']; try done.
      + exfalso. apply Hin'. by right.
      + apply elem_of_cons in Hin' as [->|?]; [|done]. by rewrite lookup_insert_eq.
      + rewrite lookup_insert_ne; [done|]. intros ->. apply Hin'. left. }
  rewrite Hgen. by rewrite lookup_empty.
Qed.

(** One scorer's scores, added entry by entry: the entry of a pod changes
    exactly when the scorer returned a score for it. *)
Lemma addScores_lookup (weight : Z) (scores weightedScorePerPod : gmap Pod float64) pod :
  addScores weight scores weightedScorePerPod !! pod =
  match scores !! pod with
  | Some score =>
      Some (default 0 (weightedScorePerPod !! pod) + score * float64_of_int weight)%float
  | None => weightedScorePerPod !! pod
  end.
Proof.
  unfold addScores. revert pod.
  apply (map_fold_weak_ind
           (fun (r : gmap Pod float64) (m : gmap Pod float64) => forall pod,
              r !! pod = match m !! pod with
                         | Some score =>
                             Some (default 0 (weightedScorePerPod !! pod)
                                   + score * float64_of_int weight)%float
                         | None => weightedScorePerPod !! pod
                         end)).
  - intros pod. by rewrite lookup_empty.
  - intros i x m r Hi IH pod. unfold addWeighted.
    destruct (decide (i = pod)) as [->|Hne].
    + rewrite !lookup_insert_eq. rewrite IH, Hi. done.
    + rewrite !lookup_insert_ne by done. apply IH.
Qed.

(** The order in which [range] visits the scores makes no difference. *)
Lemma addScores_any_order (weight : Z) (scores weightedScorePerPod : gmap Pod float64)
    (visited : list (Pod * float64)) :
  visited ≡ₚ map_to_list scores ->
  fold_left (fun m '(pod, score) => addWeighted weight pod score m) visited weightedScorePerPod =
  addScores weight scores weightedScorePerPod.
Proof.
  intros Hperm. apply map_eq. intros pod. rewrite addScores_lookup.
  assert (NoDup visited.*1) as Hnd by (rewrite Hperm; apply NoDup_fst_map_to_list).
  assert (scores = list_to_map visited) as ->.
  { rewrite <- (list_to_map_to_list scores). symmetry.
    apply list_to_map_proper; done. }
  clear Hperm. revert weightedScorePerPod.
  induction visited as [|[k x] l IH]; intros m.
  - simpl. by rewrite lookup_empty.
  - apply NoDup_cons in Hnd as [Hk Hnd].
    change (fold_left (fun m '(pod, score) => addWeighted weight pod score m) l
              (addWeighted weight k x m) !! pod =
            match <[k:=x]> (list_to_map l : gmap Pod float64) !! pod with
            | Some score => Some (default 0 (m !! pod) + score * float64_of_int weight)%float
            | None => m !! pod
            end).
    rewrite (IH Hnd). unfold addWeighted.
    destruct (decide (k = pod)) as [->|Hne].
    + rewrite (not_elem_of_list_to_map_1 _ _ Hk), !lookup_insert_eq. done.
    + rewrite !lookup_insert_ne by done. done.
Qed.

Lemma accumulate_Some (x : float64) pod (outputs : list (gmap Pod float64 * Z)) :
  accumulate (Some x) pod outputs =
  Some (fold_left (fun total '(scores, weight) =>
                     match scores !! pod with
                     | Some score => (total + score * float64_of_int weight)%float
                     | None => total
                     end) outputs x).
Proof.
  revert x. induction outputs as [|[scores weight] outputs IH]; intros x; [done|].
  unfold accumulate in *. simpl. destruct (scores !! pod); simpl; apply IH.
Qed.

Lemma accumulate_candidate pod (outputs : list (gmap Pod float64 * Z)) :
  accumulate (Some 0%float) pod outputs = Some (weightedSum pod outputs).
Proof. apply accumulate_Some. Qed.

Lemma accumulate_stranger pod (outputs : list (gmap Pod float64 * Z)) :
  accumulate None pod outputs =
  if scoredBySome pod outputs then Some (weightedSum pod outputs) else None.
Proof.
  induction outputs as [|[scores weight] outputs IH]; [done|].
  unfold accumulate, weightedSum, scoredBySome in *. simpl.
  destruct (scores !! pod) as [score|] eqn:Hs; simpl.
  - apply accumulate_Some.
  - apply IH.
Qed.

(** The scorers always return, and leave for every pod the entry
    [accumulate] describes. *)
Lemma scorerLoop_accumulates (ss : list WeightedScorer) ctx pods
    (weightedScorePerPod : gmap Pod float64) w :
  exists (result : gmap Pod float64) w',
    scorerLoop ss ctx pods weightedScorePerPod w = Returns result w' /\
    forall pod, result !! pod =
      accumulate (weightedScorePerPod !! pod) pod (scorerOutputs ss ctx pods (plugins w)).
Proof.
  revert weightedScorePerPod w.
  induction ss as [|scorer ss IH]; intros acc w; simpl.
  - by eexists _, _.
  - rewrite bind_invoke.
    destruct (WS_Score scorer ctx pods (plugins w)) as [scores st] eqn:Hcall. simpl.
    destruct (IH (addScores (Weight scorer) scores acc)
                 (afterCall ScorerPluginType (WS_Name scorer) st w))
      as (result & w' & Hrun & Hlookup).
    exists result, w'. split; [done|]. intros pod. rewrite Hlookup, addScores_lookup.
    unfold accumulate. simpl. by destruct (scores !! pod).
Qed.

Lemma scoredBySome_inside pods pod (outputs : list (gmap Pod float64 * Z)) :
  (forall scores weight pod, (scores, weight) ∈ outputs -> is_Some (scores !! pod) -> pod ∈ pods) ->
  pod ∉ pods -> scoredBySome pod outputs = false.
Proof.
  intros Hin Hpod. unfold scoredBySome.
  destruct (existsb _ outputs) eqn:Hex; [|done].
  apply existsb_exists in Hex as ([scores weight] & Hmem & Hsome).
  apply bool_decide_eq_true in Hsome. exfalso. apply Hpod.
  eapply Hin; [|exact Hsome]. apply list_elem_of_In. exact Hmem.
Qed.

(** The score phase always returns, and leaves for every pod the entry
    [accumulate] describes, from 0 for a candidate and from no entry for
    any other pod. *)
Lemma runScorerPlugins_entries p ctx pods w :
  exists (weightedScorePerPod : gmap Pod float64) w',
    runScorerPlugins p ctx pods w = Returns weightedScorePerPod w' /\
    forall pod,
      weightedScorePerPod !! pod =
      accumulate (if decide (pod ∈ pods) then Some 0%float else None) pod
        (scorerOutputs (scorers p) ctx pods (plugins w)).
Proof.
  unfold runScorerPlugins.
  destruct (scorerLoop_accumulates (scorers p) ctx pods (initScores pods) w)
    as (result & w' & Hrun & Hlookup).
  exists result, w'. split; [done|].
  intros pod. by rewrite Hlookup, initScores_lookup.
Qed.

(** When no scorer returns a score for a pod outside the candidates, the
    keys after the score phase are the candidates. *)
Lemma accumulated_keys pods (outputs : list (gmap Pod float64 * Z))
    (weightedScorePerPod : gmap Pod float64) :
  (forall pod,
     weightedScorePerPod !! pod =
     accumulate (if decide (pod ∈ pods) then Some 0%float else None) pod outputs) ->
  (forall scores weight pod,
     (scores, weight) ∈ outputs -> is_Some (scores !! pod) -> pod ∈ pods) ->
  forall pod, is_Some (weightedScorePerPod !! pod) <-> pod ∈ pods.
Proof.
  intros Hlookup Hinside pod. rewrite Hlookup.
  destruct (decide (pod ∈ pods)) as [Hin|Hout].
  - rewrite accumulate_candidate. split; eauto.
  - rewrite accumulate_stranger, (scoredBySome_inside pods) by done.
    split; [by intros [? ?]|done].
Qed.

(** C1 (amended).  The score phase always returns.  The accumulator it hands
    on has, for every candidate, the sum over the weighted scorers, in their
    order, of score times weight, a scorer that returned no score for the
    candidate adding nothing.  A pair a scorer returns for a pod outside the
    candidates is added as well, under a new key; the keys are exactly the
    candidates when no scorer returns such a pair. *)
Theorem runScorerPlugins_weighted_sums p ctx pods w :
  exists (weightedScorePerPod : gmap Pod float64) w',
    runScorerPlugins p ctx pods w = Returns weightedScorePerPod w' /\
    (forall pod, pod ∈ pods ->
       weightedScorePerPod !! pod =
       Some (weightedSum pod (scorerOutputs (scorers p) ctx pods (plugins w)))) /\
    (forall pod, pod ∉ pods ->
       weightedScorePerPod !! pod =
       if scoredBySome pod (scorerOutputs (scorers p) ctx pods (plugins w))
       then Some (weightedSum pod (scorerOutputs (scorers p) ctx pods (plugins w)))
       else None) /\
    ((forall scores weight pod,
        (scores, weight) ∈ scorerOutputs (scorers p) ctx pods (plugins w) ->
        is_Some (scores !! pod) -> pod ∈ pods) ->
     forall pod, is_Some (weightedScorePerPod !! pod) <-> pod ∈ pods).
Proof.
  destruct (runScorerPlugins_entries p ctx pods w) as (result & w' & Hrun & Hlookup).
  exists result, w'. split; [done|]. split; [|split].
  - intros pod Hpod. rewrite Hlookup, decide_True by done. apply accumulate_candidate.
  - intros pod Hpod. rewrite Hlookup, decide_False by done. apply accumulate_stranger.
  - by apply accumulated_keys.
Qed.

(** ** The whole cycle *)

(** A cycle that gets past the guard, step by step. *)
Lemma RunCycle_steps p ctx w pods w1 (acc : gmap Pod float64) w2 pk res st w3 :
  runFilterPlugins p ctx w = Returns pods w1 -> pods <> [] ->
  runScorerPlugins p ctx pods w1 = Returns acc w2 ->
  picker p = Some pk ->
  Picker_Pick pk ctx (toScoredPods rangeScores acc) (plugins w2) = (res, st) ->
  postCycleLoop (postCyclePlugins p) ctx res
    (afterCall PickerPluginType (Picker_Name pk) st w2) = Returns tt w3 ->
  RunCycle rangeScores p ctx w = Returns (res, None) w3.
Proof.
  intros Hf Hne Hs Hpk Hpick Hpost. unfold RunCycle.
  rewrite (bind_Returns _ _ _ _ _ Hf).
  destruct pods as [|pod pods]; [done|]. change (length (pod :: pods) =? 0)%nat with false. cbv iota.
  rewrite (bind_Returns _ _ _ _ _ Hs).
  assert (runPickerPlugin rangeScores p ctx acc w2 =
          Returns res (afterCall PickerPluginType (Picker_Name pk) st w2)) as Hp.
  { unfold runPickerPlugin. rewrite Hpk, invoke_Returns, Hpick. reflexivity. }
  rewrite (bind_Returns _ _ _ _ _ Hp).
  unfold runPostCyclePlugins. by rewrite (bind_Returns _ _ _ _ _ Hpost).
Qed.

(** The three ways a cycle can end. *)
Lemma RunCycle_cases p ctx w :
  exists pods w1, runFilterPlugins p ctx w = Returns pods w1 /\
    ((pods = [] /\ RunCycle rangeScores p ctx w = Returns (None, Some errNoPods) w1) \/
     (pods <> [] /\ exists (acc : gmap Pod float64) w2,
        runScorerPlugins p ctx pods w1 = Returns acc w2 /\
        ((picker p = None /\ RunCycle rangeScores p ctx w = Panics w2) \/
         (exists pk w3, picker p = Some pk /\
            postCycleLoop (postCyclePlugins p) ctx
              (Picker_Pick pk ctx (toScoredPods rangeScores acc) (plugins w2)).1
              (afterCall PickerPluginType (Picker_Name pk)
                 (Picker_Pick pk ctx (toScoredPods rangeScores acc) (plugins w2)).2 w2)
              = Returns tt w3 /\
            RunCycle rangeScores p ctx w =
              Returns ((Picker_Pick pk ctx (toScoredPods rangeScores acc) (plugins w2)).1, None)
                      w3)))).
Proof.
  destruct (filterLoop_Returns (filters p) ctx (PodsSnapshot ctx) w) as (pods & w1 & Hf).
  exists pods, w1. split; [done|].
  destruct pods as [|pod pods].
  - left. split; [done|]. unfold RunCycle. by rewrite (bind_Returns _ _ _ _ _ Hf).
  - right. split; [done|].
    destruct (runScorerPlugins_entries p ctx (pod :: pods) w1) as (acc & w2 & Hs & _).
    exists acc, w2. split; [done|].
    destruct (picker p) as [pk|] eqn:Hpk.
    + right.
      destruct (Picker_Pick pk ctx (toScoredPods rangeScores acc) (plugins w2))
        as [res st] eqn:Hpick.
      destruct (postCycleLoop_Returns (postCyclePlugins p) ctx res
                  (afterCall PickerPluginType (Picker_Name pk) st w2)) as (w3 & Hpost).
      exists pk, w3. rewrite Hpick. simpl. split; [done|]. split; [done|].
      by apply (RunCycle_steps p ctx w (pod :: pods) w1 acc w2 pk res st w3).
    + left. split; [done|]. unfold RunCycle.
      rewrite (bind_Returns _ _ _ _ _ Hf). change (length (pod :: pods) =? 0)%nat with false. cbv iota.
      rewrite (bind_Returns _ _ _ _ _ Hs).
      unfold runPickerPlugin. rewrite Hpk. reflexivity.
Qed.

(** A cycle never runs out of fuel, and its only error is [errNoPods]. *)
Lemma RunCycle_error p ctx w r e w' :
  RunCycle rangeScores p ctx w = Returns (r, Some e) w' ->
  r = None /\ e = errNoPods /\ runFilterPlugins p ctx w = Returns [] w'.
Proof.
  destruct (RunCycle_cases p ctx w) as (pods & w1 & Hf & Hcases).
  destruct Hcases as [[-> ->]|[Hne (acc & w2 & Hs & [[_ ->]|(pk & w3 & _ & _ & ->)])]];
    intros Heq; try discriminate.
  by injection Heq as <- <- <-.
Qed.

(** The pods handed to the picker are the keys of the accumulator. *)
Lemma toScoredPods_keys (acc : gmap Pod float64) sp :
  sp ∈ toScoredPods rangeScores acc -> is_Some (acc !! ScoredPod_Pod sp).
Proof.
  unfold toScoredPods. intros Hin. apply list_elem_of_fmap in Hin as ([pod score] & -> & Hin).
  rewrite rangeScores_entries in Hin. apply elem_of_map_to_list in Hin. simpl. eauto.
Qed.

(** C2 (amended).  When no scorer returns a score for a pod outside the
    candidates it is given, the scored pods handed to the picker are all
    post-filter candidates; hence, the picker picking among the scored pods
    it is given, so is the pod of the result of a cycle that succeeds. *)
Theorem RunCycle_picks_candidate p ctx w pods w1 r w' :
  runFilterPlugins p ctx w = Returns pods w1 ->
  RunCycle rangeScores p ctx w = Returns (Some r, None) w' ->
  (forall scores weight pod,
     (scores, weight) ∈ scorerOutputs (scorers p) ctx pods (plugins w1) ->
     is_Some (scores !! pod) -> pod ∈ pods) ->
  (forall pk scoredPods st res,
     picker p = Some pk -> (Picker_Pick pk ctx scoredPods st).1 = Some res ->
     TargetPod res ∈ map ScoredPod_Pod scoredPods) ->
  TargetPod r ∈ pods /\
  exists (acc : gmap Pod float64) w2,
    runScorerPlugins p ctx pods w1 = Returns acc w2 /\
    forall sp, sp ∈ toScoredPods rangeScores acc -> ScoredPod_Pod sp ∈ pods.
Proof.
  intros Hf Hrun Hscorers Hpicker.
  destruct (RunCycle_cases p ctx w) as (pods' & w1' & Hf' & Hcases).
  rewrite Hf in Hf'. injection Hf' as <- <-.
  destruct Hcases as [[-> Hr]|[Hne (acc & w2 & Hs & [[_ Hr]|(pk & w3 & Hpk & _ & Hr)])]];
    rewrite Hr in Hrun; try discriminate.
  injection Hrun as Hres _.
  destruct (runScorerPlugins_entries p ctx pods w1) as (acc' & w2' & Hs' & Hentries).
  rewrite Hs in Hs'. injection Hs' as <- <-.
  assert (forall sp, sp ∈ toScoredPods rangeScores acc -> ScoredPod_Pod sp ∈ pods) as Hsp.
  { intros sp Hin. apply (accumulated_keys pods _ acc Hentries Hscorers).
    by apply toScoredPods_keys. }
  split; [|by exists acc, w2].
  specialize (Hpicker pk _ _ r Hpk Hres).
  apply list_elem_of_fmap in Hpicker as (sp & -> & Hin). by apply Hsp.
Qed.


(** ** The profiles of one iteration *)

Variable ToSchedulerPodMetrics : list PodMetrics -> list Pod.
Variable LLMRequest_String : LLMRequest -> string.
Variable rangeProfiles :
  gmap string (@SchedulerProfile Pod _ _ LLMRequest LLMResponse PluginState) ->
  list (string * @SchedulerProfile Pod _ _ LLMRequest LLMResponse PluginState).
Hypothesis rangeProfiles_entries : forall m, rangeProfiles m ≡ₚ map_to_list m.

Implicit Types (s : @Scheduler Pod _ _ LLMRequest LLMResponse PluginState).
Implicit Types (req : LLMRequest).
Implicit Types (results : gmap string (option (@Result Pod))).
Implicit Types (entries : list (string * @SchedulerProfile Pod _ _ LLMRequest LLMResponse PluginState)).
Implicit Types (cycles : list (string * option (@Result Pod))).

Lemma runProfiles_cons_ok name p entries sCtx results w r w1 :
  RunCycle rangeScores p sCtx w = Returns (r, None) w1 ->
  runProfiles rangeScores ((name, p) :: entries) sCtx results w =
  runProfiles rangeScores entries sCtx (<[name := r]> results) w1.
Proof. intros Hrun. simpl. by rewrite (bind_Returns _ _ _ _ _ Hrun). Qed.

Lemma runProfiles_cons_err name p entries sCtx results w r e w1 :
  RunCycle rangeScores p sCtx w = Returns (r, Some e) w1 ->
  runProfiles rangeScores ((name, p) :: entries) sCtx results w =
  Returns (inl (errRunProfiles e)) w1.
Proof. intros Hrun. simpl. by rewrite (bind_Returns _ _ _ _ _ Hrun). Qed.

Lemma runProfiles_app (pre post : list (string * SchedulerProfile)) sCtx results w mid wa :
  runProfiles rangeScores pre sCtx results w = Returns (inr mid) wa ->
  runProfiles rangeScores (pre ++ post) sCtx results w =
  runProfiles rangeScores post sCtx mid wa.
Proof.
  revert results w. induction pre as [|[name p] pre IH]; intros results w Hpre.
  - simpl in Hpre. by injection Hpre as -> ->.
  - simpl in *. unfold mbind, M_bind in *.
    destruct (RunCycle rangeScores p sCtx w) as [[r [e|]] w1|w1|]; try done.
    by apply IH.
Qed.

(** Profiles that all succeed: each is run once, in order, and its result
    stored under its name. *)
Lemma runProfiles_stores entries sCtx results w results' w' :
  runProfiles rangeScores entries sCtx results w = Returns (inr results') w' ->
  results' = storeAll results (cyclesRun rangeScores entries sCtx w) /\
  (cyclesRun rangeScores entries sCtx w).*1 = entries.*1.
Proof.
  revert results w. induction entries as [|[name p] entries IH]; intros results w Hrun.
  - simpl in *. by injection Hrun as -> ->.
  - simpl in *. unfold mbind, M_bind in *.
    destruct (RunCycle rangeScores p sCtx w) as [[r [e|]] w1|w1|]; try done.
    simpl in *. destruct (IH _ _ Hrun) as [Hstored Hnames].
    split; [exact Hstored|]. f_equal. exact Hnames.
Qed.

(** Profiles of which one fails: those before it succeeded, and the error
    returned wraps the error of its cycle. *)
Lemma runProfiles_fails entries sCtx results w e w' :
  runProfiles rangeScores entries sCtx results w = Returns (inl e) w' ->
  exists (pre : list (string * SchedulerProfile)) name p (post : list (string * SchedulerProfile))
         mid wa r e0,
    entries = pre ++ (name, p) :: post /\
    runProfiles rangeScores pre sCtx results w = Returns (inr mid) wa /\
    RunCycle rangeScores p sCtx wa = Returns (r, Some e0) w' /\
    e = errRunProfiles e0.
Proof.
  revert results w. induction entries as [|[name p] entries IH]; intros results w Hrun.
  - done.
  - simpl in Hrun. unfold mbind, M_bind in Hrun.
    destruct (RunCycle rangeScores p sCtx w) as [[r [e0|]] w1|w1|] eqn:Hcycle; try done.
    + simpl in Hrun. injection Hrun as <- <-.
      exists [], name, p, entries, results, w, r, e0. done.
    + simpl in Hrun.
      destruct (IH _ _ Hrun) as (pre & name' & p' & post & mid & wa & r' & e0 & -> & Hpre & Hc & ->).
      exists ((name, p) :: pre), name', p', post, mid, wa, r', e0.
      repeat split; try done. by rewrite (runProfiles_cons_ok _ _ _ _ _ _ _ _ Hcycle).
Qed.

Lemma lastRun_from_Some cycles name (r : option (@Result Pod)) :
  is_Some (fold_left (fun found '(name', r) => if decide (name' = name) then Some r else found)
                     cycles (Some r)).
Proof.
  revert r. induction cycles as [|[name' r'] cycles IH]; intros r; simpl; [eauto|].
  case_decide; apply IH.
Qed.

Lemma storeAll_lookup results cycles name :
  storeAll results cycles !! name =
  match lastRun name cycles with
  | Some r => Some r
  | None => results !! name
  end.
Proof.
  unfold storeAll, lastRun.
  assert (forall results (found : option (option Result)),
            (forall r, found = Some r -> results !! name = Some r) ->
            fold_left (fun m '(name, r) => <[name := r]> m) cycles results !! name =
            match fold_left (fun found '(name', r) =>
                               if decide (name' = name) then Some r else found)
                            cycles found with
            | Some r => Some r
            | None => results !! name
            end) as Hgen.
  { induction cycles as [|[name' r] cycles IH]; intros results0 found Hinv.
    - simpl. destruct found as [r|]; [by apply Hinv|done].
    - simpl. rewrite (IH (<[name':=r]> results0)
                         (if decide (name' = name) then Some r else found)).
      + case_decide as Hn.
        * subst name'. by destruct (lastRun_from_Some cycles name r) as [x ->].
        * by rewrite lookup_insert_ne.
      + intros r0. case_decide as Hn.
        * subst name'. intros [= <-]. by rewrite lookup_insert_eq.
        * intros Hf. rewrite lookup_insert_ne by done. by apply Hinv. }
  by apply Hgen.
Qed.

Lemma lastRun_is_Some cycles name :
  is_Some (lastRun name cycles) <-> name ∈ cycles.*1.
Proof.
  unfold lastRun.
  assert (forall (found : option (option Result)),
            is_Some (fold_left (fun found '(name', r) =>
                                  if decide (name' = name) then Some r else found)
                               cycles found) <->
            is_Some found \/ name ∈ cycles.*1) as Hgen.
  { induction cycles as [|[name' r] cycles IH]; intros found; simpl.
    - rewrite elem_of_nil. tauto.
    - rewrite IH, elem_of_cons. case_decide as Hn.
      + subst name'. split; [tauto|]. intros _. left. eauto.
      + split; [tauto|]. intros [?|[?|?]]; [tauto|congruence|tauto]. }
  rewrite Hgen. split; [|tauto]. intros [[? ?]|?]; done.
Qed.

(** ** The loop of [Schedule] *)

(** One iteration, in terms of the profiles picked and the world they are
    run from. *)
Lemma scheduleIteration_unfold s req sCtx results w :
  scheduleIteration rangeScores rangeProfiles s req sCtx results w =
  if (size (ProfilePicker_Pick (profilePicker s) req (profiles s) results (plugins w)).1 =? 0)%nat
  then Returns Break (afterPick s req results w)
  else
    match runProfiles rangeScores (pickedEntries rangeProfiles s req results w) sCtx results
            (afterPick s req results w) with
    | Returns (inl err) w' => Returns (Return err) w'
    | Returns (inr results') w' => Returns (Continue results') w'
    | Panics w' => Panics w'
    | OutOfFuel => OutOfFuel
    end.
Proof.
  unfold scheduleIteration. rewrite bind_invoke. fold (afterPick s req results w).
  destruct (size _ =? 0)%nat; [done|].
  unfold mbind, M_bind, pickedEntries.
  destruct (runProfiles _ _ _ _ _) as [[e|results'] w'|w'|]; done.
Qed.

(** The picked profiles are none exactly when the picked map is empty. *)
Lemma pickedEntries_nil s req results w :
  pickedEntries rangeProfiles s req results w = [] <->
  size (ProfilePicker_Pick (profilePicker s) req (profiles s) results (plugins w)).1 = 0%nat.
Proof.
  unfold pickedEntries. rewrite map_size_empty_iff, <- map_to_list_empty_iff.
  split; intros Hnil.
  - apply Permutation_nil. by rewrite <- rangeProfiles_entries, Hnil.
  - apply Permutation_nil. by rewrite rangeProfiles_entries, Hnil.
Qed.

Lemma scheduleLoop_after n fuel s req sCtx results w results1 w1 :
  afterIterations rangeScores rangeProfiles n s req sCtx results w = Some (results1, w1) ->
  scheduleLoop LLMRequest_String rangeScores rangeProfiles (n + fuel) s req sCtx results w =
  scheduleLoop LLMRequest_String rangeScores rangeProfiles fuel s req sCtx results1 w1.
Proof.
  revert results w. induction n as [|n IH]; intros results w Hafter; simpl in *.
  - by injection Hafter as -> ->.
  - unfold mbind, M_bind.
    destruct (scheduleIteration _ _ _ _ _ _ _) as [[|results'|e] w'|w'|]; try done.
    by apply IH.
Qed.

Lemma afterIterations_stores n s req sCtx results w results1 w1 :
  afterIterations rangeScores rangeProfiles n s req sCtx results w = Some (results1, w1) ->
  results1 = storeAll results (scheduleCycles rangeScores rangeProfiles n s req sCtx results w).
Proof.
  revert results w. induction n as [|n IH]; intros results w Hafter; simpl in *.
  - by injection Hafter as -> ->.
  - destruct (scheduleIteration _ _ _ _ _ _ _) as [[|results'|e] w'|w'|] eqn:Hit; try done.
    rewrite scheduleIteration_unfold in Hit.
    destruct (size _ =? 0)%nat; [done|].
    destruct (runProfiles _ _ _ _ _) as [[e|results''] w''|w''|] eqn:Hrun; try done.
    injection Hit as -> ->.
    apply runProfiles_stores in Hrun as [-> _].
    rewrite (IH _ _ Hafter). unfold storeAll. by rewrite fold_left_app.
Qed.

(** However the loop returns, it went through some iterations that went
    on, and then one that ended it. *)
Lemma scheduleLoop_Returns_inv fuel s req sCtx results w out w' :
  scheduleLoop LLMRequest_String rangeScores rangeProfiles fuel s req sCtx results w
    = Returns out w' ->
  exists n results1 w1,
    (n < fuel)%nat /\
    afterIterations rangeScores rangeProfiles n s req sCtx results w = Some (results1, w1) /\
    ((scheduleIteration rangeScores rangeProfiles s req sCtx results1 w1 = Returns Break w' /\
      out = scheduleEnd LLMRequest_String req results1) \/
     (exists e,
        scheduleIteration rangeScores rangeProfiles s req sCtx results1 w1
          = Returns (Return e) w' /\
        out = (None, Some e))).
Proof.
  revert results w. induction fuel as [|fuel IH]; intros results w Hloop; [done|].
  simpl in Hloop. unfold mbind, M_bind in Hloop.
  destruct (scheduleIteration _ _ _ _ _ _ _) as [[|results'|e] w1|w1|] eqn:Hit; try done.
  - injection Hloop as <- <-. exists 0%nat, results, w.
    split; [lia|]. split; [done|]. left. done.
  - destruct (IH _ _ Hloop) as (n & results1 & w2 & Hn & Hafter & Hend).
    exists (S n), results1, w2. split; [lia|]. split; [|done]. simpl. by rewrite Hit.
  - injection Hloop as <- <-. exists 0%nat, results, w.
    split; [lia|]. split; [done|]. right. exists e. done.
Qed.

(** [Schedule] reads the datastore, and runs the loop on what it read. *)
Lemma Schedule_unfold fuel s req w :
  Schedule ToSchedulerPodMetrics LLMRequest_String rangeScores rangeProfiles fuel s req w =
  deferred (record SchedulerE2ELatency)
    (scheduleLoop LLMRequest_String rangeScores rangeProfiles fuel s req
       (entryContext ToSchedulerPodMetrics req w) ∅)
    (entryWorld w).
Proof. reflexivity. Qed.

Lemma runProfiles_app_inv (pre post : list (string * SchedulerProfile)) sCtx results w results' w' :
  runProfiles rangeScores (pre ++ post) sCtx results w = Returns (inr results') w' ->
  exists mid wa,
    runProfiles rangeScores pre sCtx results w = Returns (inr mid) wa /\
    runProfiles rangeScores post sCtx mid wa = Returns (inr results') w'.
Proof.
  revert results w. induction pre as [|[name p] pre IH]; intros results w Hrun.
  - by exists results, w.
  - simpl in *. unfold mbind, M_bind in *.
    destruct (RunCycle rangeScores p sCtx w) as [[r [e|]] w1|w1|]; try done.
    by apply IH.
Qed.

Lemma errRunProfiles_wraps (e : error) : errRunProfiles e <> e.
Proof.
  unfold errRunProfiles. generalize "failed to run all required scheduling profiles - ".
  induction e as [c m|t|t e IH]; intros t0 Heq; try discriminate.
  injection Heq as _ Heq. by apply (IH t).
Qed.

(** C4 (amended).  After any number of iterations that went on: when a
    profile's cycle returns an error, the profiles picked before it having
    succeeded, [Schedule] returns no results map and returns the cycle's
    error wrapped by [fmt.Errorf] under the text "failed to run all required
    scheduling profiles - ", which is another error value and has no error
    class of its own; when the profile picker picks nothing and no result is
    stored, [Schedule] returns no results map and a plain [fmt.Errorf] error,
    "failed to run any SchedulingProfile for the request - " and the request,
    without an error class.  These are the only errors of [Schedule], and
    none comes with a results map. *)
Theorem Schedule_errors s req w :
  (forall n fuel results1 w1
          (pre : list (string * SchedulerProfile)) name p (post : list (string * SchedulerProfile))
          mid wa r e0 wb,
     afterIterations rangeScores rangeProfiles n s req
       (entryContext ToSchedulerPodMetrics req w) ∅ (entryWorld w) = Some (results1, w1) ->
     pickedEntries rangeProfiles s req results1 w1 = pre ++ (name, p) :: post ->
     runProfiles rangeScores pre (entryContext ToSchedulerPodMetrics req w) results1
       (afterPick s req results1 w1) = Returns (inr mid) wa ->
     RunCycle rangeScores p (entryContext ToSchedulerPodMetrics req w) wa
       = Returns (r, Some e0) wb ->
     Schedule ToSchedulerPodMetrics LLMRequest_String rangeScores rangeProfiles
       (n + S fuel) s req w =
       Returns (None, Some (errRunProfiles e0)) (record SchedulerE2ELatency wb) /\
     errRunProfiles e0 <> e0 /\ errorCode (errRunProfiles e0) = None)
  /\ (forall n fuel results1 w1,
        afterIterations rangeScores rangeProfiles n s req
          (entryContext ToSchedulerPodMetrics req w) ∅ (entryWorld w) = Some (results1, w1) ->
        pickedEntries rangeProfiles s req results1 w1 = [] -> results1 = ∅ ->
        Schedule ToSchedulerPodMetrics LLMRequest_String rangeScores rangeProfiles
          (n + S fuel) s req w =
          Returns (None, Some (errNoProfileRan LLMRequest_String req))
                  (record SchedulerE2ELatency (afterPick s req results1 w1)) /\
        errorCode (errNoProfileRan LLMRequest_String req) = None)
  /\ (forall fuel out e w',
        Schedule ToSchedulerPodMetrics LLMRequest_String rangeScores rangeProfiles fuel s req w
          = Returns (out, Some e) w' ->
        out = None /\
        (e = errRunProfiles errNoPods \/ e = errNoProfileRan LLMRequest_String req)).
Proof.
  split; [|split].
  - intros n fuel results1 w1 pre name p post mid wa r e0 wb Hafter Hpicked Hpre Hcycle.
    split; [|split; [apply errRunProfiles_wraps|done]].
    rewrite Schedule_unfold. unfold deferred.
    rewrite (scheduleLoop_after _ _ _ _ _ _ _ _ _ Hafter). simpl scheduleLoop.
    unfold mbind, M_bind. rewrite scheduleIteration_unfold.
    destruct (size _ =? 0)%nat eqn:Hsize.
    { apply Nat.eqb_eq, pickedEntries_nil in Hsize. rewrite Hsize in Hpicked.
      by destruct pre. }
    rewrite Hpicked, (runProfiles_app _ _ _ _ _ _ _ Hpre).
    by rewrite (runProfiles_cons_err _ _ _ _ _ _ _ _ _ Hcycle).
  - intros n fuel results1 w1 Hafter Hnil ->. split; [|done].
    rewrite Schedule_unfold. unfold deferred.
    rewrite (scheduleLoop_after _ _ _ _ _ _ _ _ _ Hafter). simpl scheduleLoop.
    unfold mbind, M_bind. rewrite scheduleIteration_unfold.
    apply pickedEntries_nil in Hnil. rewrite Hnil. simpl.
    unfold mret, M_ret, scheduleEnd. by rewrite map_size_empty.
  - intros fuel out e w' Hrun.
    rewrite Schedule_unfold in Hrun. unfold deferred in Hrun.
    destruct (scheduleLoop _ _ _ _ _ _ _ _ _) as [out' w1|w1|] eqn:Hloop; try done.
    injection Hrun as -> <-.
    apply scheduleLoop_Returns_inv in Hloop
      as (n & results1 & w2 & _ & _ & [[_ Hout]|(e' & Hit & Hout)]).
    + unfold scheduleEnd in Hout. destruct (size results1 =? 0)%nat; [|done].
      injection Hout as -> ->. split; [done|by right].
    + injection Hout as -> ->. split; [done|left].
      rewrite scheduleIteration_unfold in Hit.
      destruct (size _ =? 0)%nat; [done|].
      destruct (runProfiles _ _ _ _ _) as [[e0|results'] w3|w3|] eqn:Hprofiles; try done.
      injection Hit as -> ->.
      apply runProfiles_fails in Hprofiles
        as (pre & name & p & post & mid & wa & r & e1 & _ & _ & Hcycle & ->).
      apply RunCycle_error in Hcycle as (_ & -> & _). done.
Qed.

(** Profiles of which one before the end fails or panics: the profiles
    after it are not run. *)
Lemma runProfiles_app_stops (pre post : list (string * SchedulerProfile)) sCtx results w :
  (forall e wa,
     runProfiles rangeScores pre sCtx results w = Returns (inl e) wa ->
     runProfiles rangeScores (pre ++ post) sCtx results w = Returns (inl e) wa) /\
  (forall wa,
     runProfiles rangeScores pre sCtx results w = Panics wa ->
     runProfiles rangeScores (pre ++ post) sCtx results w = Panics wa).
Proof.
  revert results w. induction pre as [|[name p] pre IH]; intros results w.
  - split; intros; done.
  - simpl. unfold mbind, M_bind.
    destruct (RunCycle rangeScores p sCtx w) as [[r [e0|]] w1|w1|]; simpl; [done| |done|done].
    apply IH.
Qed.

(** C5 (amended).  [Schedule] looks no picked name up in the scheduler's
    registered profiles.  In an iteration it runs the entries of the map the
    profile picker returns one after another, in the order the map is
    visited, until a cycle fails or panics.  An entry under a name that is
    not registered is run like any other: once the entries visited before it
    have succeeded its cycle is run, from the world they leave; when the
    cycle succeeds the iteration goes on with the entries after it, and the
    result is in the results map of the iteration under that name; when the
    cycle fails the iteration ends [Schedule] with the wrapped error, and the
    entries after it are not run.  The entry is not run only when a cycle
    before it failed or panicked.  And in an iteration that goes on, the
    entry was run that way. *)
Theorem unregistered_profile_is_run s req sCtx results w name p :
  (ProfilePicker_Pick (profilePicker s) req (profiles s) results (plugins w)).1 !! name
    = Some p ->
  profiles s !! name = None ->
  exists pre post : list (string * SchedulerProfile),
    pickedEntries rangeProfiles s req results w = pre ++ (name, p) :: post /\
    (name ∉ pre.*1) /\ (name ∉ post.*1) /\
    (forall mid wa,
       runProfiles rangeScores pre sCtx results (afterPick s req results w)
         = Returns (inr mid) wa ->
       (forall r wb,
          RunCycle rangeScores p sCtx wa = Returns (r, None) wb ->
          scheduleIteration rangeScores rangeProfiles s req sCtx results w =
            (x ← runProfiles rangeScores post sCtx (<[name := r]> mid);
             mret (match x with
                   | inl err => Return err
                   | inr results' => Continue results'
                   end)) wb /\
          forall results' w',
            scheduleIteration rangeScores rangeProfiles s req sCtx results w
              = Returns (Continue results') w' ->
            results' !! name = Some r) /\
       (forall r e wb,
          RunCycle rangeScores p sCtx wa = Returns (r, Some e) wb ->
          scheduleIteration rangeScores rangeProfiles s req sCtx results w
            = Returns (Return (errRunProfiles e)) wb) /\
       (forall wb,
          RunCycle rangeScores p sCtx wa = Panics wb ->
          scheduleIteration rangeScores rangeProfiles s req sCtx results w = Panics wb)) /\
    (forall e wa,
       runProfiles rangeScores pre sCtx results (afterPick s req results w)
         = Returns (inl e) wa ->
       scheduleIteration rangeScores rangeProfiles s req sCtx results w
         = Returns (Return e) wa) /\
    (forall wa,
       runProfiles rangeScores pre sCtx results (afterPick s req results w) = Panics wa ->
       scheduleIteration rangeScores rangeProfiles s req sCtx results w = Panics wa) /\
    (forall results' w',
       scheduleIteration rangeScores rangeProfiles s req sCtx results w
         = Returns (Continue results') w' ->
       exists mid wa r wb,
         runProfiles rangeScores pre sCtx results (afterPick s req results w)
           = Returns (inr mid) wa /\
         RunCycle rangeScores p sCtx wa = Returns (r, None) wb /\
         results' !! name = Some r).
Proof.
  intros Hpicked _.
  assert ((name, p) ∈ pickedEntries rangeProfiles s req results w) as Hin.
  { unfold pickedEntries. rewrite rangeProfiles_entries. by apply elem_of_map_to_list. }
  assert (NoDup (pickedEntries rangeProfiles s req results w).*1) as Hnd.
  { unfold pickedEntries. rewrite rangeProfiles_entries. apply NoDup_fst_map_to_list. }
  assert ((size (ProfilePicker_Pick (profilePicker s) req (profiles s) results (plugins w)).1
           =? 0)%nat = false) as Hsize.
  { apply Nat.eqb_neq. intros Hzero. apply map_size_empty_iff in Hzero.
    rewrite Hzero, lookup_empty in Hpicked. done. }
  apply list_elem_of_split in Hin as (pre & post & Hsplit).
  rewrite Hsplit in Hnd. rewrite fmap_app, fmap_cons in Hnd.
  apply NoDup_app in Hnd as (_ & Hpre & Hnd). apply NoDup_cons in Hnd as [Hpost _].
  simpl in Hpre, Hpost.
  assert (forall results' w' mid wa r wb,
            runProfiles rangeScores pre sCtx results (afterPick s req results w)
              = Returns (inr mid) wa ->
            RunCycle rangeScores p sCtx wa = Returns (r, None) wb ->
            runProfiles rangeScores post sCtx (<[name := r]> mid) wb
              = Returns (inr results') w' ->
            results' !! name = Some r) as Hstored.
  { intros results' w' mid wa r wb _ _ Hrest.
    apply runProfiles_stores in Hrest as [-> Hnames]. rewrite storeAll_lookup.
    destruct (lastRun name _) as [x|] eqn:Hlast; [|by rewrite lookup_insert_eq].
    exfalso. apply Hpost. rewrite <- Hnames. apply lastRun_is_Some. by rewrite Hlast. }
  exists pre, post. split; [exact Hsplit|].
  split; [intros Hin; by apply (Hpre name Hin); left|]. split; [exact Hpost|].
  split; [|split; [|split]].
  - intros mid wa Hran.
    assert (runProfiles rangeScores (pickedEntries rangeProfiles s req results w) sCtx results
              (afterPick s req results w) =
            runProfiles rangeScores ((name, p) :: post) sCtx mid wa) as Hgo.
    { rewrite Hsplit. by apply runProfiles_app. }
    split; [|split].
    + intros r wb Hcycle.
      assert (scheduleIteration rangeScores rangeProfiles s req sCtx results w =
              (x ← runProfiles rangeScores post sCtx (<[name := r]> mid);
               mret (match x with
                     | inl err => Return err
                     | inr results' => Continue results'
                     end)) wb) as Hit.
      { rewrite scheduleIteration_unfold, Hsize, Hgo,
          (runProfiles_cons_ok _ _ _ _ _ _ _ _ Hcycle).
        unfold mbind, M_bind.
        by destruct (runProfiles rangeScores post sCtx (<[name := r]> mid) wb)
          as [[e|results'] w'|w'|]. }
      split; [exact Hit|].
      intros results' w'. rewrite Hit. unfold mbind, M_bind.
      destruct (runProfiles rangeScores post sCtx (<[name := r]> mid) wb)
        as [[e|results''] w''|w''|] eqn:Hrest; try done.
      intros [= <- <-]. by eapply Hstored.
    + intros r e wb Hcycle.
      by rewrite scheduleIteration_unfold, Hsize, Hgo,
        (runProfiles_cons_err _ _ _ _ _ _ _ _ _ Hcycle).
    + intros wb Hcycle.
      rewrite scheduleIteration_unfold, Hsize, Hgo. simpl. unfold mbind, M_bind.
      by rewrite Hcycle.
  - intros e wa Hran.
    destruct (runProfiles_app_stops pre ((name, p) :: post) sCtx results
                (afterPick s req results w)) as [Hstops _].
    by rewrite scheduleIteration_unfold, Hsize, Hsplit, (Hstops _ _ Hran).
  - intros wa Hran.
    destruct (runProfiles_app_stops pre ((name, p) :: post) sCtx results
                (afterPick s req results w)) as [_ Hstops].
    by rewrite scheduleIteration_unfold, Hsize, Hsplit, (Hstops _ Hran).
  - intros results' w' Hit. rewrite scheduleIteration_unfold, Hsize in Hit.
    destruct (runProfiles rangeScores (pickedEntries rangeProfiles s req results w) sCtx
                results (afterPick s req results w))
      as [[e|results''] w''|w''|] eqn:Hrun; try done.
    injection Hit as -> ->. rewrite Hsplit in Hrun.
    apply runProfiles_app_inv in Hrun as (mid & wa & Hran & Hrest).
    simpl in Hrest. unfold mbind, M_bind in Hrest.
    destruct (RunCycle rangeScores p sCtx wa) as [[r [e|]] wb|wb|] eqn:Hcycle; try done.
    simpl in Hrest. exists mid, wa, r, wb. split; [done|]. split; [done|].
    by eapply Hstored.
Qed.

(** C9.  A profile picked again is run again, and its result replaces the
    one stored under its name.  So when [Schedule] returns a results map,
    the map holds, for every name, the result of the most recent of the
    cycles that were run under that name, and it has an entry exactly for
    the names under which a cycle was run.  And [Schedule] does return the
    map, given fuel for one iteration more than those that went on, once the
    profile picker picks nothing and a result is stored. *)
Theorem Schedule_results_latest s req w :
  (forall name p entries sCtx results0 w0 r w1,
     RunCycle rangeScores p sCtx w0 = Returns (r, None) w1 ->
     runProfiles rangeScores ((name, p) :: entries) sCtx results0 w0 =
     runProfiles rangeScores entries sCtx (<[name := r]> results0) w1) /\
  (forall fuel results w',
     Schedule ToSchedulerPodMetrics LLMRequest_String rangeScores rangeProfiles fuel s req w
       = Returns (Some results, None) w' ->
     exists n, (n < fuel)%nat /\
       (forall name,
          results !! name =
          lastRun name
            (scheduleCycles rangeScores rangeProfiles n s req
               (entryContext ToSchedulerPodMetrics req w) ∅ (entryWorld w))) /\
       (forall name,
          is_Some (results !! name) <->
          name ∈ (scheduleCycles rangeScores rangeProfiles n s req
                    (entryContext ToSchedulerPodMetrics req w) ∅ (entryWorld w)).*1)) /\
  (forall n fuel results w1,
     afterIterations rangeScores rangeProfiles n s req
       (entryContext ToSchedulerPodMetrics req w) ∅ (entryWorld w) = Some (results, w1) ->
     pickedEntries rangeProfiles s req results w1 = [] ->
     results <> ∅ ->
     Schedule ToSchedulerPodMetrics LLMRequest_String rangeScores rangeProfiles
       (n + S fuel) s req w =
       Returns (Some results, None) (record SchedulerE2ELatency (afterPick s req results w1)) /\
     forall name,
       results !! name =
       lastRun name
         (scheduleCycles rangeScores rangeProfiles n s req
            (entryContext ToSchedulerPodMetrics req w) ∅ (entryWorld w))).
Proof.
  assert (forall n results w1,
            afterIterations rangeScores rangeProfiles n s req
              (entryContext ToSchedulerPodMetrics req w) ∅ (entryWorld w) = Some (results, w1) ->
            forall name,
              results !! name =
              lastRun name
                (scheduleCycles rangeScores rangeProfiles n s req
                   (entryContext ToSchedulerPodMetrics req w) ∅ (entryWorld w))) as Hlatest.
  { intros n results w1 Hafter name. apply afterIterations_stores in Hafter.
    rewrite Hafter at 1. rewrite storeAll_lookup, lookup_empty. by destruct (lastRun _ _). }
  split; [intros; by apply runProfiles_cons_ok|]. split.
  - intros fuel results w' Hrun.
    rewrite Schedule_unfold in Hrun. unfold deferred in Hrun.
    destruct (scheduleLoop _ _ _ _ _ _ _ _ _) as [out w1|w1|] eqn:Hloop; try done.
    injection Hrun as -> <-.
    apply scheduleLoop_Returns_inv in Hloop
      as (n & results1 & w2 & Hn & Hafter & [[_ Hout]|(e & _ & Hout)]); [|done].
    unfold scheduleEnd in Hout. destruct (size results1 =? 0)%nat; [done|].
    injection Hout as <-.
    exists n. split; [done|]. split; [by eapply Hlatest|].
    intros name. rewrite (Hlatest _ _ _ Hafter). apply lastRun_is_Some.
  - intros n fuel results w1 Hafter Hnil Hne. split; [|by eapply Hlatest].
    rewrite Schedule_unfold. unfold deferred.
    rewrite (scheduleLoop_after _ _ _ _ _ _ _ _ _ Hafter). simpl scheduleLoop.
    unfold mbind, M_bind. rewrite scheduleIteration_unfold.
    apply pickedEntries_nil in Hnil. rewrite Hnil. simpl.
    unfold mret, M_ret, scheduleEnd.
    destruct (size results =? 0)%nat eqn:Hsize; [|done].
    apply Nat.eqb_eq, map_size_empty_iff in Hsize. done.
Qed.

(** ** Isolation from the datastore *)

Lemma isolated_ret {A : Type} (a : A) : isolated (mret a : @M PodMetrics PluginState A).
Proof. split; [intros w1 w2 Hp; by split|done]. Qed.

Lemma isolated_panic {A : Type} : isolated (panic : @M PodMetrics PluginState A).
Proof. split; [by intros w1 w2 Hp|done]. Qed.

Lemma isolated_bind {A B : Type} (c : @M PodMetrics PluginState A) (f : A -> M B) :
  isolated c -> (forall a, isolated (f a)) -> isolated (c ≫= f).
Proof.
  intros [Hc Hcalls] Hf. split.
  - intros w1 w2 Hp. specialize (Hc w1 w2 Hp). unfold mbind, M_bind.
    destruct (c w1) as [a1 w1'|w1'|], (c w2) as [a2 w2'|w2'|]; simpl in Hc; try done.
    destruct Hc as [-> Hp']. by apply (Hf a2).
  - intros w. specialize (Hcalls w). unfold mbind, M_bind.
    destruct (c w) as [a w'|w'|]; try done.
    destruct (Hf a) as [_ Hfc]. specialize (Hfc w').
    destruct (f a w') as [b w''|w''|]; congruence.
Qed.

Lemma isolated_invoke {A : Type} (pluginType : PluginType) (name : string) (method : call A) :
  isolated (invoke pluginType name method : @M PodMetrics PluginState A).
Proof.
  split.
  - intros w1 w2 Hp. rewrite !invoke_Returns. simpl. by rewrite Hp.
  - intros w. by rewrite invoke_Returns.
Qed.

Lemma isolated_filterLoop (fs : list Filter) ctx pods :
  isolated (filterLoop fs ctx pods : @M PodMetrics PluginState _).
Proof.
  revert pods. induction fs as [|f fs IH]; intros pods; simpl.
  - apply isolated_ret.
  - apply isolated_bind; [apply isolated_invoke|].
    intros pods'. destruct (length pods' =? 0)%nat; [apply isolated_ret|apply IH].
Qed.

Lemma isolated_scorerLoop (ss : list WeightedScorer) ctx pods (acc : gmap Pod float64) :
  isolated (scorerLoop ss ctx pods acc : @M PodMetrics PluginState _).
Proof.
  revert acc. induction ss as [|scorer ss IH]; intros acc; simpl.
  - apply isolated_ret.
  - apply isolated_bind; [apply isolated_invoke|]. intros scores. apply IH.
Qed.

Lemma isolated_postCycleLoop (ps : list PostCycle) ctx (res : option Result) :
  isolated (postCycleLoop ps ctx res : @M PodMetrics PluginState _).
Proof.
  induction ps as [|plugin ps IH]; simpl.
  - apply isolated_ret.
  - apply isolated_bind; [apply isolated_invoke|]. intros _. apply IH.
Qed.

Lemma isolated_RunCycle p ctx :
  isolated (RunCycle rangeScores p ctx : @M PodMetrics PluginState _).
Proof.
  unfold RunCycle. apply isolated_bind; [apply isolated_filterLoop|].
  intros pods. destruct (length pods =? 0)%nat; [apply isolated_ret|].
  apply isolated_bind; [apply isolated_scorerLoop|]. intros acc.
  apply isolated_bind.
  { unfold runPickerPlugin. destruct (picker p); [apply isolated_invoke|apply isolated_panic]. }
  intros res. apply isolated_bind; [apply isolated_postCycleLoop|].
  intros _. apply isolated_ret.
Qed.

Lemma isolated_runProfiles entries sCtx results :
  isolated (runProfiles rangeScores entries sCtx results : @M PodMetrics PluginState _).
Proof.
  revert results. induction entries as [|[name p] entries IH]; intros results; simpl.
  - apply isolated_ret.
  - apply isolated_bind; [apply isolated_RunCycle|].
    intros [r [e|]]; simpl; [apply isolated_ret|apply IH].
Qed.

Lemma isolated_scheduleIteration s req sCtx results :
  isolated (scheduleIteration rangeScores rangeProfiles s req sCtx results
            : @M PodMetrics PluginState _).
Proof.
  unfold scheduleIteration. apply isolated_bind; [apply isolated_invoke|].
  intros picked. destruct (size picked =? 0)%nat; [apply isolated_ret|].
  apply isolated_bind; [apply isolated_runProfiles|]. intros r. apply isolated_ret.
Qed.

Lemma isolated_scheduleLoop fuel s req sCtx results :
  isolated (scheduleLoop LLMRequest_String rangeScores rangeProfiles fuel s req sCtx results
            : @M PodMetrics PluginState _).
Proof.
  revert results. induction fuel as [|fuel IH]; intros results; simpl.
  - split; [by intros w1 w2 Hp|done].
  - apply isolated_bind; [apply isolated_scheduleIteration|].
    intros [|results'|e]; [apply isolated_ret|apply IH|apply isolated_ret].
Qed.

(** C8 (amended).  [Schedule] calls [PodGetAll] once, before anything else,
    and nothing the concurrent writers do to the datastore once it has begun
    bears on what it returns: two runs that read the same pods, from the
    same plugin state, and in which [range] visits the maps in the same
    order, end the same way with the same results.  The order of [range] is
    an input of the run beside the pods read and the request: the statement
    is about one order, [rangeScores] and [rangeProfiles], in both runs. *)
Theorem Schedule_snapshot_isolation fuel s req w1 w2 :
  plugins w1 = plugins w2 -> datastore w1 = datastore w2 ->
  verdictOf (Schedule ToSchedulerPodMetrics LLMRequest_String rangeScores rangeProfiles
               fuel s req w1) =
  verdictOf (Schedule ToSchedulerPodMetrics LLMRequest_String rangeScores rangeProfiles
               fuel s req w2) /\
  (forall out w',
     Schedule ToSchedulerPodMetrics LLMRequest_String rangeScores rangeProfiles fuel s req w1
       = Returns out w' ->
     podGetAllCalls w' = S (podGetAllCalls w1)) /\
  Schedule ToSchedulerPodMetrics LLMRequest_String rangeScores rangeProfiles fuel s req w1 =
    deferred (record SchedulerE2ELatency)
      (scheduleLoop LLMRequest_String rangeScores rangeProfiles fuel s req
         (NewSchedulingContext (Some req) None (ToSchedulerPodMetrics (datastore w1))) ∅)
      (entryWorld w1).
Proof.
  intros Hp Hd. split; [|split; [|reflexivity]].
  - rewrite !Schedule_unfold. unfold deferred, entryContext. rewrite Hd.
    destruct (isolated_scheduleLoop fuel s req
                (NewSchedulingContext (Some req) None (ToSchedulerPodMetrics (datastore w2))) ∅)
      as [Hsame _].
    specialize (Hsame (entryWorld w1) (entryWorld w2) Hp).
    destruct (scheduleLoop _ _ _ _ _ _ _ _ (entryWorld w1)) as [a1 w1'|w1'|],
             (scheduleLoop _ _ _ _ _ _ _ _ (entryWorld w2)) as [a2 w2'|w2'|];
      simpl in *; try done.
    by destruct Hsame as [-> _].
  - intros out w'. rewrite Schedule_unfold. unfold deferred.
    destruct (isolated_scheduleLoop fuel s req (entryContext ToSchedulerPodMetrics req w1) ∅)
      as [_ Hcalls].
    specialize (Hcalls (entryWorld w1)).
    destruct (scheduleLoop _ _ _ _ _ _ _ _ (entryWorld w1)) as [a1 w1'|w1'|]; try done.
    intros [= _ <-]. simpl. exact Hcalls.
Qed.

(** * Further properties *)

(** ** What a cycle records *)

Lemma scorerLoop_log (ss : list WeightedScorer) ctx pods (acc acc' : gmap Pod float64) w w' :
  scorerLoop ss ctx pods acc w = Returns acc' w' ->
  metricsLog w' = metricsLog w ++ map scorerSample ss.
Proof.
  revert acc w. induction ss as [|scorer ss IH]; intros acc w Hrun; simpl in *.
  - injection Hrun as _ <-. by rewrite app_nil_r.
  - rewrite bind_invoke in Hrun. rewrite (IH _ _ Hrun).
    unfold afterCall, scorerSample. simpl. by rewrite <- app_assoc.
Qed.


Lemma runFilterPlugins_log p ctx w pods w1 :
  runFilterPlugins p ctx w = Returns pods w1 -> pods <> [] ->
  metricsLog w1 = metricsLog w ++ map filterSample (filters p).
Proof.
  intros Hrun Hne.
  destruct (filterLoop_app (filters p) [] ctx _ w pods w1 Hrun (or_intror Hne)) as [_ Hlog].
  exact Hlog.
Qed.


(** X2.  A profile without a picker, as [NewSchedulerProfile] leaves it:
    when the filters leave no pod its cycle fails like any other; when they
    leave pods the cycle panics on the nil picker, after it has called every
    scorer and before any post-cycle plugin. *)
Theorem RunCycle_without_picker p ctx w pods w1 :
  picker p = None ->
  runFilterPlugins p ctx w = Returns pods w1 ->
  (pods = [] -> RunCycle rangeScores p ctx w = Returns (None, Some errNoPods) w1) /\
  (pods <> [] ->
   exists w2,
     RunCycle rangeScores p ctx w = Panics w2 /\
     metricsLog w2 = metricsLog w1 ++ map scorerSample (scorers p)).
Proof.
  intros Hpk Hf.
  destruct (RunCycle_cases p ctx w) as (pods' & w1' & Hf' & Hcases).
  rewrite Hf in Hf'. injection Hf' as <- <-.
  destruct Hcases as [[-> Hr]|[Hne (acc & w2 & Hs & [[_ Hr]|(pk & w3 & Hpk' & _)])]].
  - split; [done|]. by intros Hne.
  - split; [done|]. intros _. exists w2. split; [done|].
    unfold runScorerPlugins in Hs. by apply scorerLoop_log in Hs.
  - congruence.
Qed.

(** ** What the picker is given *)

Lemma toScoredPods_pods (acc : gmap Pod float64) :
  map ScoredPod_Pod (toScoredPods rangeScores acc) ≡ₚ (map_to_list acc).*1.
Proof.
  unfold toScoredPods. rewrite map_map, <- rangeScores_entries.
  assert (map (fun x => ScoredPod_Pod
                 (let '(pod, score) := x in
                  {| ScoredPod_Pod := pod; ScoredPod_Score := score |}))
              (rangeScores acc) = (rangeScores acc).*1) as ->; [|done].
  apply map_ext. by intros [pod score].
Qed.

Lemma toScoredPods_scores (acc : gmap Pod float64) sp :
  sp ∈ toScoredPods rangeScores acc -> acc !! ScoredPod_Pod sp = Some (ScoredPod_Score sp).
Proof.
  unfold toScoredPods. intros Hin. apply list_elem_of_fmap in Hin as ([pod score] & -> & Hin).
  rewrite rangeScores_entries in Hin. by apply elem_of_map_to_list in Hin.
Qed.

(** X3.  The picker is given every candidate, and each pod once, also when
    the candidates list a pod twice; the score it is given for a candidate
    is the candidate's weighted sum.  When no scorer returns a score for a
    pod outside the candidates, the pods it is given are the candidates
    without their repetitions. *)
Theorem scoredPods_cover_candidates p ctx pods w :
  exists (acc : gmap Pod float64) w',
    runScorerPlugins p ctx pods w = Returns acc w' /\
    NoDup (map ScoredPod_Pod (toScoredPods rangeScores acc)) /\
    (forall pod, pod ∈ pods -> pod ∈ map ScoredPod_Pod (toScoredPods rangeScores acc)) /\
    (forall sp, sp ∈ toScoredPods rangeScores acc -> ScoredPod_Pod sp ∈ pods ->
       ScoredPod_Score sp =
       weightedSum (ScoredPod_Pod sp) (scorerOutputs (scorers p) ctx pods (plugins w))) /\
    ((forall scores weight pod,
        (scores, weight) ∈ scorerOutputs (scorers p) ctx pods (plugins w) ->
        is_Some (scores !! pod) -> pod ∈ pods) ->
     map ScoredPod_Pod (toScoredPods rangeScores acc) ≡ₚ remove_dups pods).
Proof.
  destruct (runScorerPlugins_entries p ctx pods w) as (acc & w' & Hrun & Hentries).
  exists acc, w'. split; [done|].
  assert (NoDup (map ScoredPod_Pod (toScoredPods rangeScores acc))) as Hnd.
  { rewrite toScoredPods_pods. apply NoDup_fst_map_to_list. }
  assert (forall pod, pod ∈ map ScoredPod_Pod (toScoredPods rangeScores acc) <->
                      is_Some (acc !! pod)) as Hkeys.
  { intros pod. rewrite toScoredPods_pods. split.
    - intros Hin. apply list_elem_of_fmap in Hin as ([pod' score] & -> & Hin).
      apply elem_of_map_to_list in Hin. simpl. eauto.
    - intros [score Hscore]. apply list_elem_of_fmap. exists (pod, score).
      split; [done|]. by apply elem_of_map_to_list. }
  split; [done|]. split; [|split].
  - intros pod Hpod. apply Hkeys. rewrite Hentries, decide_True by done.
    rewrite accumulate_candidate. eauto.
  - intros sp Hsp Hpod. apply toScoredPods_scores in Hsp.
    rewrite Hentries, decide_True, accumulate_candidate in Hsp by done.
    by injection Hsp as <-.
  - intros Hinside. apply NoDup_Permutation; [done|apply NoDup_remove_dups|].
    intros pod. rewrite Hkeys, elem_of_remove_dups.
    by apply accumulated_keys with (outputs := scorerOutputs (scorers p) ctx pods (plugins w)).
Qed.

Lemma scorerOutputs_inside (ss : list WeightedScorer) ctx pods (st : PluginState) :
  (forall scorer pods0 st0 pod,
     scorer ∈ ss -> is_Some ((WS_Score scorer ctx pods0 st0).1 !! pod) -> pod ∈ pods0) ->
  forall scores weight pod,
    (scores, weight) ∈ scorerOutputs ss ctx pods st -> is_Some (scores !! pod) -> pod ∈ pods.
Proof.
  revert st. induction ss as [|scorer ss IH]; intros st Hcontract scores weight pod Hin Hsome.
  - by apply elem_of_nil in Hin.
  - simpl in Hin. destruct (WS_Score scorer ctx pods st) as [scores0 st'] eqn:Hcall.
    apply elem_of_cons in Hin as [Heq|Hin].
    + injection Heq as -> _. apply (Hcontract scorer pods st pod); [left|].
      by rewrite Hcall.
    + eapply (IH st'); [|exact Hin|exact Hsome].
      intros scorer' pods0 st0 pod0 Hmem. apply Hcontract. by right.
Qed.

(** X4.  When every filter returns a part of the pods it is given, no
    scorer returns a score for a pod it was not given, and the picker picks
    among the scored pods it is given, the pod of a cycle's result is a pod
    of the snapshot. *)
Theorem RunCycle_target_in_snapshot p ctx w r w' :
  RunCycle rangeScores p ctx w = Returns (Some r, None) w' ->
  (forall f pods0 st, f ∈ filters p -> (Filter_Filter f ctx pods0 st).1 ⊆ pods0) ->
  (forall scorer pods0 st0 pod,
     scorer ∈ scorers p -> is_Some ((WS_Score scorer ctx pods0 st0).1 !! pod) -> pod ∈ pods0) ->
  (forall pk scoredPods st res,
     picker p = Some pk -> (Picker_Pick pk ctx scoredPods st).1 = Some res ->
     TargetPod res ∈ map ScoredPod_Pod scoredPods) ->
  TargetPod r ∈ PodsSnapshot ctx.
Proof.
  intros Hrun Hfilters Hscorers Hpicker.
  destruct (RunCycle_cases p ctx w) as (pods & w1 & Hf & Hcases).
  destruct Hcases as [[-> Hr]|[Hne (acc & w2 & Hs & [[_ Hr]|(pk & w3 & Hpk & _ & Hr)])]];
    rewrite Hr in Hrun; try discriminate.
  injection Hrun as Hres _.
  apply (filterLoop_subset _ _ _ _ _ _ Hfilters Hf).
  destruct (runScorerPlugins_entries p ctx pods w1) as (acc' & w2' & Hs' & Hentries).
  rewrite Hs in Hs'. injection Hs' as <- <-.
  specialize (Hpicker pk _ _ r Hpk Hres).
  apply list_elem_of_fmap in Hpicker as (sp & -> & Hin).
  apply (accumulated_keys pods _ acc Hentries); [|by apply toScoredPods_keys].
  by apply scorerOutputs_inside.
Qed.

(** ** More on [AddPlugins] *)

Lemma AddPlugins_after p (pre post : list Plugin) p1 :
  AddPlugins p pre = (p1, None) ->
  AddPlugins p (pre ++ post) = AddPlugins p1 post.
Proof.
  revert p. induction pre as [|plugin rest IH]; intros p; simpl.
  - by intros [= ->].
  - destruct (addPlugin p plugin) as [p' [e|]]; [done|]. apply IH.
Qed.

Lemma AddPlugins_stops p (pre post : list Plugin) p1 e :
  AddPlugins p pre = (p1, Some e) ->
  AddPlugins p (pre ++ post) = (p1, Some e).
Proof.
  revert p. induction pre as [|plugin rest IH]; intros p; simpl; [done|].
  destruct (addPlugin p plugin) as [p' [e'|]]; [done|]. apply IH.
Qed.

(** X5.  One call of [AddPlugins] with two lists in a row does what two
    calls in a row do, the second call being left out when the first one
    returns an error. *)
Theorem AddPlugins_concat p (first second : list Plugin) :
  AddPlugins p (first ++ second) =
  match (AddPlugins p first).2 with
  | None => AddPlugins (AddPlugins p first).1 second
  | Some _ => AddPlugins p first
  end.
Proof.
  destruct (AddPlugins p first) as [p1 [e|]] eqn:Hfirst; simpl.
  - by apply AddPlugins_stops.
  - by apply AddPlugins_after.
Qed.

Lemma addPlugin_extends p plugin :
  filters p `prefix_of` filters (addPlugin p plugin).1 /\
  scorers p `prefix_of` scorers (addPlugin p plugin).1 /\
  postCyclePlugins p `prefix_of` postCyclePlugins (addPlugin p plugin).1 /\
  PostResponsePlugins p `prefix_of` PostResponsePlugins (addPlugin p plugin).1 /\
  (forall pk, picker p = Some pk -> picker (addPlugin p plugin).1 = Some pk).
Proof.
  destruct (addPlugin_cases p plugin)
    as [[Hw ->]|[[Hw (pk & registered & Hpk & Hp & ->)]|[Hw [Hp ->]]]]; simpl.
  - done.
  - unfold registerPartly. rewrite Hw. simpl.
    repeat split; try done; by apply prefix_app_r.
  - repeat split; try by apply prefix_app_r.
    intros pk Hpk. by rewrite Hpk.
Qed.

(** X6.  [AddPlugins] only adds: whatever it returns, the filters, scorers,
    post-cycle and post-response plugins the profile had are still there, in
    front and in their order, and a picker the profile had is still its
    picker. *)
Theorem AddPlugins_only_appends p pluginObjects :
  filters p `prefix_of` filters (AddPlugins p pluginObjects).1 /\
  scorers p `prefix_of` scorers (AddPlugins p pluginObjects).1 /\
  postCyclePlugins p `prefix_of` postCyclePlugins (AddPlugins p pluginObjects).1 /\
  PostResponsePlugins p `prefix_of` PostResponsePlugins (AddPlugins p pluginObjects).1 /\
  (forall pk, picker p = Some pk -> picker (AddPlugins p pluginObjects).1 = Some pk).
Proof.
  revert p. induction pluginObjects as [|plugin rest IH]; intros p; [done|].
  simpl AddPlugins.
  destruct (addPlugin_extends p plugin) as (Hf & Hs & Hc & Hr & Hp).
  destruct (addPlugin p plugin) as [p' [e|]]; simpl in *; [done|].
  destruct (IH p') as (Hf' & Hs' & Hc' & Hr' & Hp').
  repeat split; try (etrans; eassumption).
  intros pk Hpk. apply Hp', Hp, Hpk.
Qed.

(** X7.  The error of [AddPlugins] is that of the first plugin it refuses:
    for a scorer without weight it names that scorer; for a second picker it
    names that picker and the picker that stays registered, which is the
    one the profile had or else the first picker of the list. *)
Theorem AddPlugins_first_refusal p (pre : list Plugin) plugin (post : list Plugin) :
  (AddPlugins p pre).2 = None ->
  (scorerWithoutWeight plugin = true ->
   (AddPlugins p (pre ++ plugin :: post)).2 =
     Some (errScorerWithoutWeight (Name (unwrap plugin)))) /\
  (scorerWithoutWeight plugin = false ->
   forall pk registered,
     toPicker (unwrap plugin) = Some pk ->
     picker (registerAll p pre) = Some registered ->
     (AddPlugins p (pre ++ plugin :: post)).2 =
       Some (errPickerAlreadySet (Name (unwrap plugin)) (Picker_Name registered)) /\
     picker (AddPlugins p (pre ++ plugin :: post)).1 = Some registered).
Proof.
  intros Hpre.
  assert (AddPlugins p pre = (registerAll p pre, None)) as Hrun.
  { rewrite <- (AddPlugins_registers p pre Hpre), <- Hpre. by destruct (AddPlugins p pre). }
  rewrite (AddPlugins_after _ _ _ _ Hrun). simpl AddPlugins. split.
  - intros Hw. by rewrite (addPlugin_refuses_scorer _ _ Hw).
  - intros Hw pk registered Hpk Hreg.
    rewrite (addPlugin_refuses_picker _ _ pk registered Hw Hpk Hreg). simpl.
    split; [done|]. unfold registerPartly. by rewrite Hw.
Qed.

(** ** More on [Schedule] *)

(** X8.  What [Schedule] returns is either no results map and an error, or
    a results map that is not empty and no error. *)
Theorem Schedule_return_shape fuel s req w out err w' :
  Schedule ToSchedulerPodMetrics LLMRequest_String rangeScores rangeProfiles fuel s req w
    = Returns (out, err) w' ->
  (out = None /\ is_Some err) \/
  (exists results, out = Some results /\ results <> ∅ /\ err = None).
Proof.
  intros Hrun. rewrite Schedule_unfold in Hrun. unfold deferred in Hrun.
  destruct (scheduleLoop _ _ _ _ _ _ _ _ _) as [out' w1|w1|] eqn:Hloop; try done.
  injection Hrun as -> _.
  apply scheduleLoop_Returns_inv in Hloop
    as (n & results1 & w2 & _ & _ & [[_ Hout]|(e' & _ & Hout)]).
  - unfold scheduleEnd in Hout. destruct (size results1 =? 0)%nat eqn:Hsize.
    + injection Hout as -> ->. left. eauto.
    + injection Hout as -> ->. right. exists results1. repeat split; try done.
      intros ->. by rewrite map_size_empty in Hsize.
  - injection Hout as -> ->. left. eauto.
Qed.

Lemma runProfiles_finishes entries sCtx results w :
  runProfiles rangeScores entries sCtx results w <> OutOfFuel.
Proof.
  revert results w. induction entries as [|[name p] entries IH]; intros results w; [done|].
  simpl. unfold mbind, M_bind.
  destruct (RunCycle_cases p sCtx w) as (pods & w1 & _ & Hcases).
  destruct Hcases as [[_ ->]|[_ (acc & w2 & _ & [[_ ->]|(pk & w3 & _ & _ & ->)])]];
    simpl; try done; apply IH.
Qed.

(** Profiles that all succeed leave a result under each of their names. *)
Lemma runProfiles_nonempty entries sCtx results w results' w' :
  entries <> [] ->
  runProfiles rangeScores entries sCtx results w = Returns (inr results') w' ->
  results' <> ∅.
Proof.
  intros Hne Hrun. apply runProfiles_stores in Hrun as [-> Hnames].
  destruct entries as [|[name p] entries]; [done|].
  intros Hempty. apply (f_equal (fun m => m !! name)) in Hempty.
  rewrite storeAll_lookup, lookup_empty in Hempty.
  assert (is_Some (lastRun name (cyclesRun rangeScores ((name, p) :: entries) sCtx w)))
    as [r Hr].
  { apply lastRun_is_Some. rewrite Hnames. left. }
  by rewrite Hr in Hempty.
Qed.

(** With a profile picker that picks nothing once a result is stored, the
    loop ends in its first or second iteration. *)
Lemma scheduleLoop_single_pass fuel s req sCtx w :
  (forall results st,
     results <> ∅ ->
     (ProfilePicker_Pick (profilePicker s) req (profiles s) results st).1 = ∅) ->
  scheduleLoop LLMRequest_String rangeScores rangeProfiles (S (S fuel)) s req sCtx ∅ w =
  firstPass LLMRequest_String rangeScores rangeProfiles s req sCtx w.
Proof.
  intros Hstop. unfold firstPass.
  change (scheduleLoop LLMRequest_String rangeScores rangeProfiles (S (S fuel)) s req sCtx ∅ w)
    with ((scheduleIteration rangeScores rangeProfiles s req sCtx ∅ ≫= fun it =>
             match it with
             | Break => mret (scheduleEnd LLMRequest_String req ∅)
             | Return err => mret (None, Some err)
             | Continue results' =>
                 scheduleLoop LLMRequest_String rangeScores rangeProfiles (S fuel) s req sCtx
                   results'
             end) w).
  unfold mbind at 1, M_bind at 1. rewrite scheduleIteration_unfold.
  destruct (size _ =? 0)%nat eqn:Hsize; [done|].
  destruct (runProfiles _ _ _ _ _) as [[e|results'] w1|w1|] eqn:Hrun; try done.
  assert (results' <> ∅) as Hne.
  { eapply runProfiles_nonempty; [|exact Hrun].
    intros Hnil. apply pickedEntries_nil in Hnil. by rewrite Hnil in Hsize. }
  simpl scheduleLoop. unfold mbind, M_bind. rewrite scheduleIteration_unfold.
  by rewrite (Hstop results' (plugins w1) Hne), map_size_empty.
Qed.

(** X9.  With a profile picker that picks nothing once a result is stored,
    [Schedule] is done after at most two calls of it: fuel for two
    iterations is enough, and more makes no difference.  The results map it
    then returns holds one result for each profile picked in the first
    iteration, each having been run once. *)
Theorem Schedule_single_pass s req w :
  (forall results st,
     results <> ∅ ->
     (ProfilePicker_Pick (profilePicker s) req (profiles s) results st).1 = ∅) ->
  verdictOf (Schedule ToSchedulerPodMetrics LLMRequest_String rangeScores rangeProfiles
               2 s req w) <> Unfinished /\
  (forall fuel,
     Schedule ToSchedulerPodMetrics LLMRequest_String rangeScores rangeProfiles
       (2 + fuel) s req w =
     Schedule ToSchedulerPodMetrics LLMRequest_String rangeScores rangeProfiles 2 s req w) /\
  (forall results w',
     Schedule ToSchedulerPodMetrics LLMRequest_String rangeScores rangeProfiles 2 s req w
       = Returns (Some results, None) w' ->
     results =
       storeAll ∅
         (cyclesRun rangeScores (pickedEntries rangeProfiles s req ∅ (entryWorld w))
            (entryContext ToSchedulerPodMetrics req w) (afterPick s req ∅ (entryWorld w))) /\
     (cyclesRun rangeScores (pickedEntries rangeProfiles s req ∅ (entryWorld w))
        (entryContext ToSchedulerPodMetrics req w) (afterPick s req ∅ (entryWorld w))).*1 =
     (pickedEntries rangeProfiles s req ∅ (entryWorld w)).*1).
Proof.
  intros Hstop.
  assert (forall fuel,
            Schedule ToSchedulerPodMetrics LLMRequest_String rangeScores rangeProfiles
              (S (S fuel)) s req w =
            deferred (record SchedulerE2ELatency)
              (firstPass LLMRequest_String rangeScores rangeProfiles s req
                 (entryContext ToSchedulerPodMetrics req w)) (entryWorld w)) as Hpass.
  { intros fuel. rewrite Schedule_unfold. unfold deferred.
    by rewrite scheduleLoop_single_pass. }
  split; [|split].
  - rewrite (Hpass 0%nat). unfold deferred, firstPass.
    destruct (size _ =? 0)%nat; [done|].
    destruct (runProfiles _ _ _ _ _) as [[e|results'] w1|w1|] eqn:Hrun; try done.
    by apply runProfiles_finishes in Hrun.
  - intros fuel. change (2 + fuel)%nat with (S (S fuel)).
    by rewrite (Hpass fuel), (Hpass 0%nat).
  - intros results w'. rewrite (Hpass 0%nat). unfold deferred, firstPass.
    destruct (size _ =? 0)%nat eqn:Hsize.
    { unfold scheduleEnd. by rewrite map_size_empty. }
    destruct (runProfiles _ _ _ _ _) as [[e|results'] w1|w1|] eqn:Hrun; try done.
    unfold scheduleEnd. destruct (size results' =? 0)%nat; [done|].
    intros [= <- _]. by apply runProfiles_stores in Hrun.
Qed.

(** ** What [Schedule] records *)

Lemma addsPluginSamples_ret {A : Type} (a : A) :
  addsPluginSamples (mret a : @M PodMetrics PluginState A).
Proof. intros w. exists []. by rewrite app_nil_r. Qed.

Lemma addsPluginSamples_panic {A : Type} :
  addsPluginSamples (panic : @M PodMetrics PluginState A).
Proof. intros w. exists []. by rewrite app_nil_r. Qed.

Lemma addsPluginSamples_bind {A B : Type} (c : @M PodMetrics PluginState A) (f : A -> M B) :
  addsPluginSamples c -> (forall a, addsPluginSamples (f a)) -> addsPluginSamples (c ≫= f).
Proof.
  intros Hc Hf w. specialize (Hc w). unfold mbind, M_bind.
  destruct (c w) as [a w1|w1|]; try done.
  destruct Hc as (l1 & Hl1 & Hp1). specialize (Hf a w1).
  destruct (f a w1) as [b w2|w2|]; try done;
    destruct Hf as (l2 & Hl2 & Hp2); exists (l1 ++ l2);
    (split; [by rewrite Hl2, Hl1, app_assoc|by rewrite forallb_app, Hp1, Hp2]).
Qed.

Lemma addsPluginSamples_invoke {A : Type} (pluginType : PluginType) (name : string)
    (method : call A) :
  addsPluginSamples (invoke pluginType name method : @M PodMetrics PluginState A).
Proof. intros w. rewrite invoke_Returns. by exists [PluginProcessingLatency pluginType name]. Qed.

Lemma addsPluginSamples_RunCycle p ctx :
  addsPluginSamples (RunCycle rangeScores p ctx : @M PodMetrics PluginState _).
Proof.
  unfold RunCycle. apply addsPluginSamples_bind.
  { unfold runFilterPlugins. generalize (PodsSnapshot ctx).
    induction (filters p) as [|f fs IH]; intros pods; simpl.
    - apply addsPluginSamples_ret.
    - apply addsPluginSamples_bind; [apply addsPluginSamples_invoke|].
      intros pods'. destruct (length pods' =? 0)%nat; [apply addsPluginSamples_ret|apply IH]. }
  intros pods. destruct (length pods =? 0)%nat; [apply addsPluginSamples_ret|].
  apply addsPluginSamples_bind.
  { unfold runScorerPlugins. generalize (initScores pods).
    induction (scorers p) as [|scorer ss IH]; intros acc; simpl.
    - apply addsPluginSamples_ret.
    - apply addsPluginSamples_bind; [apply addsPluginSamples_invoke|]. intros scores. apply IH. }
  intros acc. apply addsPluginSamples_bind.
  { unfold runPickerPlugin.
    destruct (picker p); [apply addsPluginSamples_invoke|apply addsPluginSamples_panic]. }
  intros res. apply addsPluginSamples_bind; [|intros _; apply addsPluginSamples_ret].
  unfold runPostCyclePlugins. induction (postCyclePlugins p) as [|plugin ps IH]; simpl.
  - apply addsPluginSamples_ret.
  - apply addsPluginSamples_bind; [apply addsPluginSamples_invoke|]. intros _. apply IH.
Qed.

Lemma addsPluginSamples_scheduleLoop fuel s req sCtx results :
  addsPluginSamples (scheduleLoop LLMRequest_String rangeScores rangeProfiles fuel s req sCtx
                       results : @M PodMetrics PluginState _).
Proof.
  revert results. induction fuel as [|fuel IH]; intros results; simpl; [done|].
  apply addsPluginSamples_bind.
  - unfold scheduleIteration. apply addsPluginSamples_bind; [apply addsPluginSamples_invoke|].
    intros picked. destruct (size picked =? 0)%nat; [apply addsPluginSamples_ret|].
    apply addsPluginSamples_bind; [|intros r; apply addsPluginSamples_ret].
    generalize results. induction (rangeProfiles picked) as [|[name p] entries IHe];
      intros results0; simpl.
    + apply addsPluginSamples_ret.
    + apply addsPluginSamples_bind; [apply addsPluginSamples_RunCycle|].
      intros [r [e|]]; simpl; [apply addsPluginSamples_ret|apply IHe].
  - intros [|results'|e]; [apply addsPluginSamples_ret|apply IH|apply addsPluginSamples_ret].
Qed.

(** X10.  A call of [Schedule] records the end-to-end latency once, as the
    last sample of the call, whether it returns results, returns an error or
    panics; everything it records before is latency of plugin calls. *)
Theorem Schedule_records_E2E_last fuel s req w :
  match Schedule ToSchedulerPodMetrics LLMRequest_String rangeScores rangeProfiles
          fuel s req w with
  | Returns _ w' =>
      exists samples,
        metricsLog w' = metricsLog w ++ samples ++ [SchedulerE2ELatency] /\
        forallb isPluginSample samples = true
  | Panics w' =>
      exists samples,
        metricsLog w' = metricsLog w ++ samples ++ [SchedulerE2ELatency] /\
        forallb isPluginSample samples = true
  | OutOfFuel => True
  end.
Proof.
  rewrite Schedule_unfold. unfold deferred.
  pose proof (addsPluginSamples_scheduleLoop fuel s req
                (entryContext ToSchedulerPodMetrics req w) ∅ (entryWorld w)) as Hloop.
  destruct (scheduleLoop _ _ _ _ _ _ _ _ _) as [out w1|w1|]; try done;
    destruct Hloop as (samples & Hlog & Hplugin); exists samples;
    (split; [|done]); simpl; rewrite Hlog; simpl; by rewrite app_assoc.
Qed.

(** ** The response path *)

Variable Pod_String : Pod -> string.
Variable nilRequest : LLMRequest.

(** X11.  The target pod of [OnResponse] is the first pod of the snapshot
    whose name is the one asked for, whatever follows it under the same
    name; it is nil exactly when no pod of the snapshot has that name. *)
Theorem findTargetPod_first pods (targetPodName : string) :
  match findTargetPod Pod_String pods targetPodName with
  | Some pod =>
      exists before after,
        pods = before ++ pod :: after /\ Pod_String pod = targetPodName /\
        forall other, other ∈ before -> Pod_String other <> targetPodName
  | None => forall other, other ∈ pods -> Pod_String other <> targetPodName
  end.
Proof.
  induction pods as [|pod pods IH]; simpl.
  - intros other Hin. by apply elem_of_nil in Hin.
  - destruct (String.eqb (Pod_String pod) targetPodName) eqn:Heq.
    + apply String.eqb_eq in Heq. exists [], pods. repeat split; try done.
      intros other Hin. by apply elem_of_nil in Hin.
    + apply String.eqb_neq in Heq.
      destruct (findTargetPod Pod_String pods targetPodName) as [found|].
      * destruct IH as (before & after & -> & Hname & Hbefore).
        exists (pod :: before), after. repeat split; try done.
        intros other Hin. apply elem_of_cons in Hin as [->|Hin]; [done|by apply Hbefore].
      * intros other Hin. apply elem_of_cons in Hin as [->|Hin]; [done|by apply IH].
Qed.

Lemma postResponseLoop_Returns (ps : list PostResponse) ctx (targetPod : option Pod) w :
  exists w',
    postResponseLoop ps ctx targetPod w = Returns tt w' /\
    podGetAllCalls w' = podGetAllCalls w /\
    metricsLog w' = metricsLog w ++ map postResponseSample ps /\
    plugins w' = afterPostResponses ps ctx targetPod (plugins w).
Proof.
  revert w. induction ps as [|plugin ps IH]; intros w; simpl.
  - exists w. by rewrite app_nil_r.
  - rewrite bind_invoke.
    destruct (IH (afterCall PostResponsePluginType (PostResponse_Name plugin)
                    (PostResponse_PostResponse plugin ctx targetPod (plugins w)).2 w))
      as (w' & -> & Hcalls & Hlog & Hst).
    exists w'. split; [done|]. split; [done|]. split; [|done].
    rewrite Hlog. unfold afterCall, postResponseSample. simpl. by rewrite <- app_assoc.
Qed.

Lemma responseLoop_Returns entries sCtx (targetPod : option Pod) w :
  exists w',
    responseLoop entries sCtx targetPod w = Returns tt w' /\
    podGetAllCalls w' = podGetAllCalls w /\
    metricsLog w' = metricsLog w ++ responseSamples entries /\
    plugins w' = afterPostResponses (postResponsesOf entries) sCtx targetPod (plugins w).
Proof.
  revert w. induction entries as [|[name p] entries IH]; intros w; simpl.
  - exists w. by rewrite app_nil_r.
  - destruct (postResponseLoop_Returns (PostResponsePlugins p) sCtx targetPod w)
      as (w1 & Hrun & Hcalls1 & Hlog1 & Hst1).
    unfold runPostResponsePlugins. rewrite (bind_Returns _ _ _ _ _ Hrun).
    destruct (IH w1) as (w' & -> & Hcalls & Hlog & Hst).
    exists w'. split; [done|]. split; [congruence|]. split.
    + rewrite Hlog, Hlog1. unfold responseSamples. simpl. by rewrite <- app_assoc.
    + rewrite Hst, Hst1. unfold postResponsesOf, afterPostResponses. simpl.
      by rewrite fold_left_app.
Qed.

(** X12.  [OnResponse] always returns, also for a profile without picker.
    It calls [PodGetAll] once, for a snapshot of its own.  It then calls the
    post-response plugins of the profiles the profile picker picks for the
    nil request and no results, profile by profile and in their order, each
    with the response, that snapshot and the target pod looked up in it.
    Their latency samples are all it records: none for the profile picker,
    no end-to-end sample. *)
Theorem OnResponse_effects s (resp : LLMResponse) (targetPodName : string) w :
  exists w',
    OnResponse ToSchedulerPodMetrics rangeProfiles Pod_String nilRequest s resp targetPodName w
      = Returns tt w' /\
    podGetAllCalls w' = S (podGetAllCalls w) /\
    metricsLog w' = metricsLog w ++ responseSamples (responseEntries rangeProfiles nilRequest s w) /\
    plugins w' =
      afterPostResponses (postResponsesOf (responseEntries rangeProfiles nilRequest s w))
        (NewSchedulingContext None (Some resp) (ToSchedulerPodMetrics (datastore w)))
        (findTargetPod Pod_String (ToSchedulerPodMetrics (datastore w)) targetPodName)
        (ProfilePicker_Pick (profilePicker s) nilRequest (profiles s) ∅ (plugins w)).2.
Proof.
  destruct (responseLoop_Returns (responseEntries rangeProfiles nilRequest s w)
              (NewSchedulingContext None (Some resp) (ToSchedulerPodMetrics (datastore w)))
              (findTargetPod Pod_String (ToSchedulerPodMetrics (datastore w)) targetPodName)
              (responseWorld nilRequest s w)) as (w' & Hrun & Hcalls & Hlog & Hst).
  exists w'. split; [|split; [exact Hcalls|split; [exact Hlog|exact Hst]]].
  rewrite <- Hrun. unfold OnResponse, mbind, M_bind, PodGetAll, invokeUnrecorded,
    responseEntries, responseWorld, entryWorld. simpl.
  by destruct (ProfilePicker_Pick (profilePicker s) nilRequest (profiles s) ∅ (plugins w)).
Qed.

(** X13.  A profile without a picker makes [Schedule] panic, not return an
    error: when it is the first profile picked and its filters leave pods,
    the call panics in the first iteration, whatever the fuel, and the
    end-to-end latency is still recorded. *)
Theorem Schedule_panics_without_picker fuel s req w name p rest pods w1 :
  pickedEntries rangeProfiles s req ∅ (entryWorld w) = (name, p) :: rest ->
  picker p = None ->
  runFilterPlugins p (entryContext ToSchedulerPodMetrics req w) (afterPick s req ∅ (entryWorld w))
    = Returns pods w1 ->
  pods <> [] ->
  exists w2,
    RunCycle rangeScores p (entryContext ToSchedulerPodMetrics req w)
      (afterPick s req ∅ (entryWorld w)) = Panics w2 /\
    Schedule ToSchedulerPodMetrics LLMRequest_String rangeScores rangeProfiles
      (S fuel) s req w = Panics (record SchedulerE2ELatency w2).
Proof.
  intros Hpicked Hpk Hf Hne.
  destruct (RunCycle_cases p (entryContext ToSchedulerPodMetrics req w)
              (afterPick s req ∅ (entryWorld w))) as (pods' & w1' & Hf' & Hcases).
  rewrite Hf in Hf'. injection Hf' as <- <-.
  destruct Hcases as [[-> _]|[_ (acc & w2 & _ & [[_ Hr]|(pk & w3 & Hpk' & _)])]];
    [done| |congruence].
  exists w2. split; [done|].
  rewrite Schedule_unfold. unfold deferred. simpl scheduleLoop.
  unfold mbind at 1, M_bind at 1. rewrite scheduleIteration_unfold.
  destruct (size _ =? 0)%nat eqn:Hsize.
  { apply Nat.eqb_eq, pickedEntries_nil in Hsize. by rewrite Hsize in Hpicked. }
  rewrite Hpicked. simpl runProfiles. unfold mbind at 1, M_bind at 1. by rewrite Hr.
Qed.

(** ** The default configuration *)

Variable NewLoraAffinityFilter NewLeastQueueFilter NewLeastKVCacheFilter :
  @Filter Pod LLMRequest LLMResponse PluginState.
Variable NewLowQueueFilter NewSheddableCapacityFilter :
  @Filter Pod LLMRequest LLMResponse PluginState.
Variable decisionTree :
  @DecisionTreeFilter Pod LLMRequest LLMResponse PluginState ->
  @Filter Pod LLMRequest LLMResponse PluginState.
Variable RandomPicker : @Picker Pod LLMRequest LLMResponse PluginState.
Variable NewAllProfilesPicker : @ProfilePicker Pod _ _ LLMRequest LLMResponse PluginState.

(** X14.  The scheduler of [NewScheduler] has the one profile "default".
    A cycle of it never panics.  It calls the sheddable-capacity filter and,
    on pods being left, the decision tree; when pods are left after that it
    hands each of them once, with the score 0, to the random picker, and
    returns what that picks; it calls no scorer and no post-cycle plugin. *)
Theorem default_profile_cycle ctx w :
  profiles (NewScheduler NewLoraAffinityFilter NewLeastQueueFilter NewLeastKVCacheFilter
              NewLowQueueFilter NewSheddableCapacityFilter decisionTree RandomPicker
              NewAllProfilesPicker)
    = {[ "default" :=
           defaultProfile NewLoraAffinityFilter NewLeastQueueFilter NewLeastKVCacheFilter
             NewLowQueueFilter NewSheddableCapacityFilter decisionTree RandomPicker ]} /\
  exists pods w1,
    runFilterPlugins
      (defaultProfile NewLoraAffinityFilter NewLeastQueueFilter NewLeastKVCacheFilter
         NewLowQueueFilter NewSheddableCapacityFilter decisionTree RandomPicker) ctx w
      = Returns pods w1 /\
    (pods = [] ->
     RunCycle rangeScores
       (defaultProfile NewLoraAffinityFilter NewLeastQueueFilter NewLeastKVCacheFilter
          NewLowQueueFilter NewSheddableCapacityFilter decisionTree RandomPicker) ctx w
       = Returns (None, Some errNoPods) w1) /\
    (pods <> [] ->
     RunCycle rangeScores
       (defaultProfile NewLoraAffinityFilter NewLeastQueueFilter NewLeastKVCacheFilter
          NewLowQueueFilter NewSheddableCapacityFilter decisionTree RandomPicker) ctx w
       = Returns
           ((Picker_Pick RandomPicker ctx (toScoredPods rangeScores (initScores pods))
               (plugins w1)).1, None)
           (afterCall PickerPluginType (Picker_Name RandomPicker)
              (Picker_Pick RandomPicker ctx (toScoredPods rangeScores (initScores pods))
                 (plugins w1)).2 w1) /\
     metricsLog w1 =
       metricsLog w ++ [filterSample NewSheddableCapacityFilter;
                        filterSample (decisionTree
                          (lowLatencyFilter NewLoraAffinityFilter NewLeastQueueFilter
                             NewLeastKVCacheFilter NewLowQueueFilter))] /\
     map ScoredPod_Pod (toScoredPods rangeScores (initScores pods)) ≡ₚ remove_dups pods /\
     forall sp, sp ∈ toScoredPods rangeScores (initScores pods) ->
                ScoredPod_Score sp = 0%float).
Proof.
  split; [reflexivity|].
  set (p := defaultProfile _ _ _ _ _ _ _).
  destruct (filterLoop_Returns (filters p) ctx (PodsSnapshot ctx) w) as (pods & w1 & Hf).
  exists pods, w1. split; [exact Hf|]. split.
  - intros ->. unfold RunCycle. by rewrite (bind_Returns _ _ _ _ _ Hf).
  - intros Hne. split; [|split; [|split]].
    + destruct (Picker_Pick RandomPicker ctx (toScoredPods rangeScores (initScores pods))
                  (plugins w1)) as [res st] eqn:Hpick.
      eapply (RunCycle_steps p ctx w pods w1 (initScores pods) w1 RandomPicker res st);
        try done.
    + apply (runFilterPlugins_log p ctx w pods w1 Hf Hne).
    + apply NoDup_Permutation; [|apply NoDup_remove_dups|].
      * rewrite toScoredPods_pods. apply NoDup_fst_map_to_list.
      * intros pod. rewrite toScoredPods_pods, elem_of_remove_dups. split.
        -- intros Hin. apply list_elem_of_fmap in Hin as ([pod' score] & -> & Hin).
           apply elem_of_map_to_list in Hin. simpl. rewrite initScores_lookup in Hin.
           by destruct (decide (pod' ∈ pods)).
        -- intros Hin. apply list_elem_of_fmap. exists (pod, 0%float). split; [done|].
           apply elem_of_map_to_list. by rewrite initScores_lookup, decide_True.
    + intros sp Hsp. apply toScoredPods_scores in Hsp. rewrite initScores_lookup in Hsp.
      destruct (decide (ScoredPod_Pod sp ∈ pods)); [|done]. by injection Hsp as <-.
Qed.

End Properties.

(** * The properties on the concrete instance *)

Lemma map_to_list_entries {K : Type} `{Countable K} {A : Type} (m : gmap K A) :
  map_to_list m ≡ₚ map_to_list m.
Proof. reflexivity. Qed.

(** The demo scorer scores only the pods it is given. *)
Lemma flatScores_inside (pods : list nat) (pod : nat) :
  is_Some (Demo.flatScores pods !! pod) -> pod ∈ pods.
Proof.
  intros [score Hscore]. unfold Demo.flatScores in Hscore.
  apply elem_of_list_to_map_2, list_elem_of_fmap in Hscore as (pod' & Heq & Hin).
  by injection Heq as -> _.
Qed.

(** The demo picker picks one of the scored pods it is given. *)
Lemma best_among (scoredPods : list (@ScoredPod nat)) (sp : @ScoredPod nat) :
  Demo.best scoredPods = Some sp -> sp ∈ scoredPods.
Proof.
  revert sp. induction scoredPods as [|sp0 rest IH]; intros sp; simpl; [done|].
  destruct (Demo.best rest) as [sp'|].
  - destruct (PrimFloat.ltb _ _); intros [= <-]; [right; by apply IH|left].
  - intros [= <-]. left.
Qed.

Lemma maxPicker_among (ctx : Demo.DContext) (scoredPods : list (@ScoredPod nat))
    (st : Demo.Journal) (res : @Result nat) :
  (Picker_Pick Demo.maxPicker ctx scoredPods st).1 = Some res ->
  TargetPod res ∈ map ScoredPod_Pod scoredPods.
Proof.
  simpl. destruct (Demo.best scoredPods) as [sp|] eqn:Hbest; simpl; [|done].
  intros [= <-]. apply list_elem_of_fmap. exists sp. split; [done|]. by apply best_among.
Qed.

(** C1, counterexample.  One candidate, pod 1, and a scorer of weight 1 that
    returns the score 5 for pod 99: the accumulator gets the key 99, with the
    score 5, next to the key 1. *)
Lemma stray_score_is_accumulated :
  exists (acc : gmap nat float64) (w' : Demo.DWorld),
    runScorerPlugins Demo.strayProfile (Demo.context [1]) [1] Demo.quiet = Returns acc w' /\
    (99 ∉ [1]) /\ acc !! 99 = Some 5%float /\ acc !! 1 = Some 0%float.
Proof.
  eexists _, _. split; [reflexivity|]. split; [|split; vm_compute; reflexivity].
  intros Hin. apply list_elem_of_singleton in Hin. discriminate.
Qed.

(** C2, witness: a cycle of the plain profile over pods 1 and 2. *)
Lemma RunCycle_picks_candidate_witness :
  TargetPod {| TargetPod := 2 |} ∈ [1; 2] /\
  exists (acc : gmap nat float64) (w2 : Demo.DWorld),
    runScorerPlugins Demo.plainProfile (Demo.context [1; 2]) [1; 2]
      (afterCall FilterPluginType "keep-all" ["keep-all"] Demo.quiet) = Returns acc w2 /\
    forall sp, sp ∈ toScoredPods map_to_list acc -> ScoredPod_Pod sp ∈ [1; 2].
Proof.
  eapply (RunCycle_picks_candidate map_to_list map_to_list_entries Demo.plainProfile
            (Demo.context [1; 2]) Demo.quiet [1; 2] _ {| TargetPod := 2 |}).
  - reflexivity.
  - vm_compute. reflexivity.
  - intros scores weight pod Hin. simpl in Hin.
    apply list_elem_of_singleton in Hin. injection Hin as -> ->.
    apply flatScores_inside.
  - intros pk scoredPods st res [= <-]. apply maxPicker_among.
Defined.

(** C2, counterexample.  The picker picks among the scored pods it is
    given, the only candidate is pod 1, and the cycle succeeds with pod 99,
    for which a scorer returned a score. *)
Lemma stray_pod_is_picked :
  (forall ctx scoredPods st res,
     (Picker_Pick Demo.maxPicker ctx scoredPods st).1 = Some res ->
     TargetPod res ∈ map ScoredPod_Pod scoredPods) /\
  exists (pods : list nat) (w1 : Demo.DWorld) (r : @Result nat) (w' : Demo.DWorld),
    picker Demo.strayProfile = Some Demo.maxPicker /\
    runFilterPlugins Demo.strayProfile (Demo.context [1]) Demo.quiet = Returns pods w1 /\
    Demo.runCycle Demo.strayProfile (Demo.context [1]) Demo.quiet = Returns (Some r, None) w' /\
    (TargetPod r ∉ pods).
Proof.
  split; [apply maxPicker_among|].
  eexists _, _, _, _. split; [reflexivity|]. split; [reflexivity|].
  split; [vm_compute; reflexivity|].
  simpl. intros Hin. apply list_elem_of_singleton in Hin. discriminate.
Qed.



(** C4, witness: the only profile drops every pod, so its cycle fails in
    the first iteration; and a scheduler without profiles runs none. *)
Lemma Schedule_errors_witness :
  (exists w' : Demo.DWorld,
     Demo.schedule 1 (Demo.scheduler Demo.allOnce Demo.dropProfile) "req" Demo.quiet
       = Returns (None, Some (errRunProfiles errNoPods)) w') /\
  (exists w' : Demo.DWorld,
     Demo.schedule 1 Demo.idleScheduler "req" Demo.quiet
       = Returns (None, Some (errNoProfileRan (fun req => req) "req")) w').
Proof.
  split.
  - destruct (Schedule_errors map_to_list (fun pods => pods) (fun req => req) map_to_list
                map_to_list_entries (Demo.scheduler Demo.allOnce Demo.dropProfile)
                "req" Demo.quiet) as [Hfails _].
    edestruct (Hfails 0%nat 0%nat ∅ (entryWorld Demo.quiet) [] "default" Demo.dropProfile [] ∅)
      as [Hschedule _].
    + reflexivity.
    + vm_compute. reflexivity.
    + reflexivity.
    + vm_compute. reflexivity.
    + eexists. exact Hschedule.
  - destruct (Schedule_errors map_to_list (fun pods => pods) (fun req => req) map_to_list
                map_to_list_entries Demo.idleScheduler "req" Demo.quiet) as (_ & Hnone & _).
    destruct (Hnone 0%nat 0%nat ∅ (entryWorld Demo.quiet)) as [Hschedule _];
      [reflexivity|vm_compute; reflexivity|reflexivity|].
    eexists. exact Hschedule.
Defined.

(** C4, counterexample.  The cycle fails with [errNoPods]; what [Schedule]
    returns is another error, which wraps it.  And the error of a call in
    which no profile ran is not of class [Internal]. *)
Lemma Schedule_error_is_wrapped :
  (exists wb : Demo.DWorld,
     Demo.runCycle Demo.dropProfile (entryContext (fun pods => pods) "req" Demo.quiet)
       (afterPick (Demo.scheduler Demo.allOnce Demo.dropProfile) "req" ∅ (entryWorld Demo.quiet))
       = Returns (None, Some errNoPods) wb) /\
  (exists (e : error) (w' : Demo.DWorld),
     Demo.schedule 1 (Demo.scheduler Demo.allOnce Demo.dropProfile) "req" Demo.quiet
       = Returns (None, Some e) w' /\ e <> errNoPods) /\
  (exists (e : error) (w' : Demo.DWorld),
     Demo.schedule 1 Demo.idleScheduler "req" Demo.quiet = Returns (None, Some e) w' /\
     errorCode e <> Some Internal).
Proof.
  split; [eexists; vm_compute; reflexivity|].
  split; eexists _, _; (split; [vm_compute; reflexivity|discriminate]).
Qed.

(** C5, witness: the profile picker picks a profile under the name "ghost",
    which the scheduler has not registered, and the iteration goes on with
    its result stored; and it picks the profiles "ghost" and "wraith", none
    registered, of which the second fails, which ends the iteration. *)
Lemma unregistered_profile_is_run_witness :
  (exists (w' : Demo.DWorld),
     scheduleIteration map_to_list map_to_list Demo.ghostScheduler "req"
       (Demo.context [1; 2]) ∅ Demo.quiet
       = Returns (Continue {[ "ghost" := Some {| TargetPod := 2 |} ]}) w') /\
  (exists pre post : list (string * Demo.DProfile),
     pickedEntries map_to_list Demo.ghostScheduler "req" ∅ Demo.quiet
       = pre ++ ("ghost", Demo.plainProfile) :: post /\
     ("ghost" ∉ pre.*1) /\ ("ghost" ∉ post.*1) /\
     (forall mid (wa : Demo.DWorld),
        runProfiles map_to_list pre (Demo.context [1; 2]) ∅
          (afterPick Demo.ghostScheduler "req" ∅ Demo.quiet) = Returns (inr mid) wa ->
        (forall r (wb : Demo.DWorld),
           RunCycle map_to_list Demo.plainProfile (Demo.context [1; 2]) wa = Returns (r, None) wb ->
           scheduleIteration map_to_list map_to_list Demo.ghostScheduler "req"
             (Demo.context [1; 2]) ∅ Demo.quiet =
             (x ← runProfiles map_to_list post (Demo.context [1; 2]) (<["ghost" := r]> mid);
              mret (match x with
                    | inl err => Return err
                    | inr results' => Continue results'
                    end)) wb /\
           forall results' (w' : Demo.DWorld),
             scheduleIteration map_to_list map_to_list Demo.ghostScheduler "req"
               (Demo.context [1; 2]) ∅ Demo.quiet = Returns (Continue results') w' ->
             results' !! "ghost" = Some r) /\
        (forall r e (wb : Demo.DWorld),
           RunCycle map_to_list Demo.plainProfile (Demo.context [1; 2]) wa = Returns (r, Some e) wb ->
           scheduleIteration map_to_list map_to_list Demo.ghostScheduler "req"
             (Demo.context [1; 2]) ∅ Demo.quiet = Returns (Return (errRunProfiles e)) wb) /\
        (forall wb : Demo.DWorld,
           RunCycle map_to_list Demo.plainProfile (Demo.context [1; 2]) wa = Panics wb ->
           scheduleIteration map_to_list map_to_list Demo.ghostScheduler "req"
             (Demo.context [1; 2]) ∅ Demo.quiet = Panics wb)) /\
     (forall e (wa : Demo.DWorld),
        runProfiles map_to_list pre (Demo.context [1; 2]) ∅
          (afterPick Demo.ghostScheduler "req" ∅ Demo.quiet) = Returns (inl e) wa ->
        scheduleIteration map_to_list map_to_list Demo.ghostScheduler "req"
          (Demo.context [1; 2]) ∅ Demo.quiet = Returns (Return e) wa) /\
     (forall wa : Demo.DWorld,
        runProfiles map_to_list pre (Demo.context [1; 2]) ∅
          (afterPick Demo.ghostScheduler "req" ∅ Demo.quiet) = Panics wa ->
        scheduleIteration map_to_list map_to_list Demo.ghostScheduler "req"
          (Demo.context [1; 2]) ∅ Demo.quiet = Panics wa) /\
     (forall results' (w' : Demo.DWorld),
        scheduleIteration map_to_list map_to_list Demo.ghostScheduler "req"
          (Demo.context [1; 2]) ∅ Demo.quiet = Returns (Continue results') w' ->
        exists mid (wa : Demo.DWorld) r (wb : Demo.DWorld),
          runProfiles map_to_list pre (Demo.context [1; 2]) ∅
            (afterPick Demo.ghostScheduler "req" ∅ Demo.quiet) = Returns (inr mid) wa /\
          RunCycle map_to_list Demo.plainProfile (Demo.context [1; 2]) wa = Returns (r, None) wb /\
          results' !! "ghost" = Some r)) /\
  (exists (w' : Demo.DWorld),
     scheduleIteration map_to_list map_to_list Demo.ghostPairScheduler "req"
       (Demo.context [1; 2]) ∅ Demo.quiet
       = Returns (Return (errRunProfiles errNoPods)) w') /\
  (exists pre post : list (string * Demo.DProfile),
     pickedEntries map_to_list Demo.ghostPairScheduler "req" ∅ Demo.quiet
       = pre ++ ("wraith", Demo.dropProfile) :: post /\
     ("wraith" ∉ pre.*1) /\ ("wraith" ∉ post.*1) /\
     (forall mid (wa : Demo.DWorld),
        runProfiles map_to_list pre (Demo.context [1; 2]) ∅
          (afterPick Demo.ghostPairScheduler "req" ∅ Demo.quiet) = Returns (inr mid) wa ->
        (forall r (wb : Demo.DWorld),
           RunCycle map_to_list Demo.dropProfile (Demo.context [1; 2]) wa = Returns (r, None) wb ->
           scheduleIteration map_to_list map_to_list Demo.ghostPairScheduler "req"
             (Demo.context [1; 2]) ∅ Demo.quiet =
             (x ← runProfiles map_to_list post (Demo.context [1; 2]) (<["wraith" := r]> mid);
              mret (match x with
                    | inl err => Return err
                    | inr results' => Continue results'
                    end)) wb /\
           forall results' (w' : Demo.DWorld),
             scheduleIteration map_to_list map_to_list Demo.ghostPairScheduler "req"
               (Demo.context [1; 2]) ∅ Demo.quiet = Returns (Continue results') w' ->
             results' !! "wraith" = Some r) /\
        (forall r e (wb : Demo.DWorld),
           RunCycle map_to_list Demo.dropProfile (Demo.context [1; 2]) wa = Returns (r, Some e) wb ->
           scheduleIteration map_to_list map_to_list Demo.ghostPairScheduler "req"
             (Demo.context [1; 2]) ∅ Demo.quiet = Returns (Return (errRunProfiles e)) wb) /\
        (forall wb : Demo.DWorld,
           RunCycle map_to_list Demo.dropProfile (Demo.context [1; 2]) wa = Panics wb ->
           scheduleIteration map_to_list map_to_list Demo.ghostPairScheduler "req"
             (Demo.context [1; 2]) ∅ Demo.quiet = Panics wb)) /\
     (forall e (wa : Demo.DWorld),
        runProfiles map_to_list pre (Demo.context [1; 2]) ∅
          (afterPick Demo.ghostPairScheduler "req" ∅ Demo.quiet) = Returns (inl e) wa ->
        scheduleIteration map_to_list map_to_list Demo.ghostPairScheduler "req"
          (Demo.context [1; 2]) ∅ Demo.quiet = Returns (Return e) wa) /\
     (forall wa : Demo.DWorld,
        runProfiles map_to_list pre (Demo.context [1; 2]) ∅
          (afterPick Demo.ghostPairScheduler "req" ∅ Demo.quiet) = Panics wa ->
        scheduleIteration map_to_list map_to_list Demo.ghostPairScheduler "req"
          (Demo.context [1; 2]) ∅ Demo.quiet = Panics wa) /\
     (forall results' (w' : Demo.DWorld),
        scheduleIteration map_to_list map_to_list Demo.ghostPairScheduler "req"
          (Demo.context [1; 2]) ∅ Demo.quiet = Returns (Continue results') w' ->
        exists mid (wa : Demo.DWorld) r (wb : Demo.DWorld),
          runProfiles map_to_list pre (Demo.context [1; 2]) ∅
            (afterPick Demo.ghostPairScheduler "req" ∅ Demo.quiet) = Returns (inr mid) wa /\
          RunCycle map_to_list Demo.dropProfile (Demo.context [1; 2]) wa = Returns (r, None) wb /\
          results' !! "wraith" = Some r)).
Proof.
  split; [eexists; vm_compute; reflexivity|]. split; [|split].
  - apply (unregistered_profile_is_run map_to_list map_to_list map_to_list_entries
             Demo.ghostScheduler "req" (Demo.context [1; 2]) ∅ Demo.quiet
             "ghost" Demo.plainProfile).
    + vm_compute. reflexivity.
    + reflexivity.
  - eexists. vm_compute. reflexivity.
  - apply (unregistered_profile_is_run map_to_list map_to_list map_to_list_entries
             Demo.ghostPairScheduler "req" (Demo.context [1; 2]) ∅ Demo.quiet
             "wraith" Demo.dropProfile).
    + vm_compute. reflexivity.
    + reflexivity.
Defined.

(** C5, counterexample.  No profile is registered under "ghost", and the
    results map [Schedule] returns has a result under that name. *)
Lemma ghost_profile_result_is_stored :
  exists (results : gmap string (option (@Result nat))) (w' : Demo.DWorld),
    Demo.schedule 2 Demo.ghostScheduler "req" Demo.quiet = Returns (Some results, None) w' /\
    profiles Demo.ghostScheduler !! "ghost" = None /\
    results !! "ghost" = Some (Some {| TargetPod := 2 |}).
Proof.
  eexists _, _. split; [vm_compute; reflexivity|]. split; vm_compute; reflexivity.
Qed.


(** C7, counterexample.  A profile is built without a picker and no error
    is raised; and the errors [AddPlugins] returns for a scorer without
    weight and for a second picker are not of class [Configuration]. *)
Lemma profile_without_picker_is_accepted :
  (AddPlugins (NewSchedulerProfile : Demo.DProfile) [] = (NewSchedulerProfile, None) /\
   picker (NewSchedulerProfile : Demo.DProfile) = None) /\
  (exists e, (AddPlugins (NewSchedulerProfile : Demo.DProfile)
                [PluginObject Demo.flatObject]).2 = Some e /\
             errorCode e <> Some Configuration) /\
  (exists e, (AddPlugins (WithPicker (NewSchedulerProfile : Demo.DProfile) (Some Demo.maxPicker))
                [PluginObject Demo.maxObject]).2 = Some e /\
             errorCode e <> Some Configuration).
Proof.
  split; [split; reflexivity|].
  split; eexists; (split; [reflexivity|discriminate]).
Qed.

(** C8, witness: the same call in a world where nobody writes to the
    datastore and in one where every pod is removed at the first step. *)
Lemma Schedule_snapshot_isolation_witness :
  verdictOf (Demo.schedule 5 (Demo.scheduler Demo.allOnce Demo.plainProfile) "req" Demo.quiet) =
  verdictOf (Demo.schedule 5 (Demo.scheduler Demo.allOnce Demo.plainProfile) "req" Demo.churning)
  /\ (forall out w',
        Demo.schedule 5 (Demo.scheduler Demo.allOnce Demo.plainProfile) "req" Demo.quiet
          = Returns out w' ->
        podGetAllCalls w' = S (podGetAllCalls Demo.quiet))
  /\ Demo.schedule 5 (Demo.scheduler Demo.allOnce Demo.plainProfile) "req" Demo.quiet =
     deferred (record SchedulerE2ELatency)
       (scheduleLoop (fun req => req) map_to_list map_to_list 5
          (Demo.scheduler Demo.allOnce Demo.plainProfile) "req"
          (NewSchedulingContext (Some "req") None (datastore Demo.quiet)) ∅)
       (entryWorld Demo.quiet).
Proof.
  apply (Schedule_snapshot_isolation map_to_list (fun pods => pods) (fun req => req) map_to_list
           5 (Demo.scheduler Demo.allOnce Demo.plainProfile) "req" Demo.quiet Demo.churning).
  - reflexivity.
  - reflexivity.
Defined.

(** C8, counterexample.  The same datastore, to which nobody writes, the
    same request and plugins that are functions of their arguments: two runs
    read the same pods.  [range] visits the two equal scores in one order in
    the first run and in the other order in the second, the picker takes the
    first of the highest score, and the two results differ. *)
Lemma Schedule_result_varies_with_range_order :
  (forall m : gmap nat float64, Demo.backwards m ≡ₚ map_to_list m) /\
  exists (results1 results2 : gmap string (option (@Result nat))) (w1 w2 : Demo.DWorld),
    Schedule (fun pods => pods) (fun req => req) map_to_list map_to_list
      2 (Demo.scheduler Demo.allOnce Demo.plainProfile) "req" Demo.quiet
      = Returns (Some results1, None) w1 /\
    Schedule (fun pods => pods) (fun req => req) Demo.backwards map_to_list
      2 (Demo.scheduler Demo.allOnce Demo.plainProfile) "req" Demo.quiet
      = Returns (Some results2, None) w2 /\
    results1 !! "default" = Some (Some {| TargetPod := 2 |}) /\
    results2 !! "default" = Some (Some {| TargetPod := 1 |}) /\
    results1 <> results2.
Proof.
  split; [intros m; apply reverse_Permutation|].
  eexists _, _, _, _. split; [vm_compute; reflexivity|]. split; [vm_compute; reflexivity|].
  assert (forall (results1 results2 : gmap string (option (@Result nat))),
            results1 !! "default" = Some (Some {| TargetPod := 2 |}) ->
            results2 !! "default" = Some (Some {| TargetPod := 1 |}) ->
            results1 <> results2) as Hdiffer.
  { intros results1 results2 H1 H2 Heq. rewrite Heq, H2 in H1. discriminate. }
  split; [vm_compute; reflexivity|]. split; [vm_compute; reflexivity|].
  apply Hdiffer; vm_compute; reflexivity.
Qed.

(** C9, witness: the profile "default" is picked in two iterations; its
    picker picks pod 2 the first time and pod 1 the second time, and the
    results map [Schedule] returns holds pod 1. *)
Lemma Schedule_results_latest_witness :
  scheduleCycles map_to_list map_to_list 2 (Demo.scheduler Demo.allTwice Demo.turnProfile) "req"
    (entryContext (fun pods => pods) "req" Demo.quiet) ∅ (entryWorld Demo.quiet)
    = [("default", Some {| TargetPod := 2 |}); ("default", Some {| TargetPod := 1 |})] /\
  (exists w1 : Demo.DWorld,
     Demo.schedule 3 (Demo.scheduler Demo.allTwice Demo.turnProfile) "req" Demo.quiet =
       Returns (Some {[ "default" := Some {| TargetPod := 1 |} ]}, None)
         (record SchedulerE2ELatency
            (afterPick (Demo.scheduler Demo.allTwice Demo.turnProfile) "req"
               {[ "default" := Some {| TargetPod := 1 |} ]} w1))) /\
  forall name,
    ({[ "default" := Some {| TargetPod := 1 |} ]} : gmap string (option (@Result nat))) !! name =
    lastRun name
      (scheduleCycles map_to_list map_to_list 2 (Demo.scheduler Demo.allTwice Demo.turnProfile)
         "req" (entryContext (fun pods => pods) "req" Demo.quiet) ∅ (entryWorld Demo.quiet)).
Proof.
  split; [vm_compute; reflexivity|].
  destruct (Schedule_results_latest map_to_list (fun pods => pods) (fun req => req) map_to_list
              map_to_list_entries (Demo.scheduler Demo.allTwice Demo.turnProfile) "req" Demo.quiet)
    as (_ & _ & Hreturns).
  edestruct (Hreturns 2%nat 0%nat {[ "default" := Some {| TargetPod := 1 |} ]})
    as [Hschedule Hlatest].
  - vm_compute. reflexivity.
  - vm_compute. reflexivity.
  - intros Hempty. apply (f_equal (fun m => m !! "default")) in Hempty.
    vm_compute in Hempty. discriminate.
  - split; [eexists; exact Hschedule|exact Hlatest].
Defined.

(** C10, witness: a picker is registered, then a weighted scorer whose
    scorer is a filter and a picker as well.  The call fails on the second
    picker and leaves the first picker, the weighted scorer and the filter
    registered. *)
Lemma AddPlugins_not_atomic_witness :
  (scorers (AddPlugins (NewSchedulerProfile : Demo.DProfile)
              [PluginObject Demo.maxObject;
               PluginWeightedScorer (NewWeightedScorer Demo.allRounderScorer 3);
               PluginObject Demo.flatObject]).1
     = [NewWeightedScorer Demo.allRounderScorer 3] /\
   length (filters (AddPlugins (NewSchedulerProfile : Demo.DProfile)
              [PluginObject Demo.maxObject;
               PluginWeightedScorer (NewWeightedScorer Demo.allRounderScorer 3);
               PluginObject Demo.flatObject]).1) = 1%nat) /\
  exists (pre : list Demo.DPlugin) plugin (post : list Demo.DPlugin),
    [PluginObject Demo.maxObject;
     PluginWeightedScorer (NewWeightedScorer Demo.allRounderScorer 3);
     PluginObject Demo.flatObject] = pre ++ plugin :: post /\
    AddPlugins (NewSchedulerProfile : Demo.DProfile) pre = (registerAll NewSchedulerProfile pre, None) /\
    AddPlugins (NewSchedulerProfile : Demo.DProfile)
      [PluginObject Demo.maxObject;
       PluginWeightedScorer (NewWeightedScorer Demo.allRounderScorer 3);
       PluginObject Demo.flatObject]
      = (registerPartly (registerAll NewSchedulerProfile pre) plugin,
         Some (errPickerAlreadySet "all-rounder" "max")) /\
    (forall weightedScorer, plugin = PluginWeightedScorer weightedScorer ->
       scorers (AddPlugins (NewSchedulerProfile : Demo.DProfile)
                  [PluginObject Demo.maxObject;
                   PluginWeightedScorer (NewWeightedScorer Demo.allRounderScorer 3);
                   PluginObject Demo.flatObject]).1 =
       scorers (NewSchedulerProfile : Demo.DProfile) ++ omap toWeightedScorer pre
         ++ [weightedScorer]).
Proof.
  split; [split; reflexivity|].
  apply (AddPlugins_not_atomic (NewSchedulerProfile : Demo.DProfile)
           [PluginObject Demo.maxObject;
            PluginWeightedScorer (NewWeightedScorer Demo.allRounderScorer 3);
            PluginObject Demo.flatObject]
           (errPickerAlreadySet "all-rounder" "max")).
  reflexivity.
Defined.

(** * The apply configuration *)

Lemma lastOr_cons (before : option string) (value : string) (values : list string) :
  V1alpha2.lastOr before (value :: values) = V1alpha2.lastOr (Some value) values.
Proof.
  unfold V1alpha2.lastOr. destruct values as [|v values]; [done|].
  rewrite last_cons_cons.
  assert (is_Some (last (v :: values))) as [x ->]; [|done].
  rewrite last_is_Some. done.
Qed.

(** X15.  After any chain of "With" calls, each field holds the value of
    the last call made for that field, and is what it was when no call was
    made for it; so calls for different fields can be made in any order, and
    a fresh reference has no field set. *)
Theorem chain_last_call_wins (b : V1alpha2.PoolObjectReferenceApplyConfiguration)
    (calls : list V1alpha2.Call) :
  V1alpha2.Group (V1alpha2.chain b calls)
    = V1alpha2.lastOr (V1alpha2.Group b) (V1alpha2.groupsOf calls) /\
  V1alpha2.Kind (V1alpha2.chain b calls)
    = V1alpha2.lastOr (V1alpha2.Kind b) (V1alpha2.kindsOf calls) /\
  V1alpha2.Name (V1alpha2.chain b calls)
    = V1alpha2.lastOr (V1alpha2.Name b) (V1alpha2.namesOf calls).
Proof.
  revert b. induction calls as [|c calls IH]; intros b.
  - unfold V1alpha2.lastOr. simpl. by destruct b.
  - unfold V1alpha2.chain in *. simpl fold_left.
    destruct (IH (V1alpha2.perform b c)) as (Hg & Hk & Hn). rewrite Hg, Hk, Hn.
    unfold V1alpha2.groupsOf, V1alpha2.kindsOf, V1alpha2.namesOf.
    destruct c; simpl; rewrite ?lastOr_cons; done.
Qed.

(** * The further properties on the concrete instance *)

Lemma keepAll_part (ctx : Demo.DContext) (pods : list nat) (st : Demo.Journal) :
  (Filter_Filter Demo.keepAll ctx pods st).1 ⊆ pods.
Proof. done. Qed.

Lemma allOnce_stops (req : string) (all : gmap string Demo.DProfile)
    (results : gmap string (option (@Result nat))) (st : Demo.Journal) :
  results <> ∅ -> (ProfilePicker_Pick Demo.allOnce req all results st).1 = ∅.
Proof.
  intros Hne. simpl. destruct (size results =? 0)%nat eqn:Hsize; [|done].
  by apply Nat.eqb_eq, map_size_empty_iff in Hsize.
Qed.


(** X2, witness: the profile without picker, with one pod and with none. *)
Lemma RunCycle_without_picker_witness :
  (exists w2 : Demo.DWorld,
     RunCycle map_to_list Demo.bareProfile (Demo.context [1]) Demo.quiet = Panics w2 /\
     metricsLog w2 =
       metricsLog (afterCall FilterPluginType "keep-all" ["keep-all"] Demo.quiet)
         ++ map scorerSample (scorers Demo.bareProfile)) /\
  RunCycle map_to_list Demo.bareProfile (Demo.context []) Demo.quiet =
    Returns (None, Some errNoPods)
      (afterCall FilterPluginType "keep-all" ["keep-all"] Demo.quiet).
Proof.
  split.
  - destruct (RunCycle_without_picker map_to_list Demo.bareProfile (Demo.context [1])
                Demo.quiet [1]
                (afterCall FilterPluginType "keep-all" ["keep-all"] Demo.quiet)
                eq_refl eq_refl) as [_ Hpanics].
    apply Hpanics. discriminate.
  - destruct (RunCycle_without_picker map_to_list Demo.bareProfile (Demo.context [])
                Demo.quiet []
                (afterCall FilterPluginType "keep-all" ["keep-all"] Demo.quiet)
                eq_refl eq_refl) as [Hfails _].
    by apply Hfails.
Defined.

(** X3, witness: the candidates list pod 1 twice. *)
Lemma scoredPods_cover_candidates_witness :
  exists (acc : gmap nat float64) (w' : Demo.DWorld),
    runScorerPlugins Demo.plainProfile (Demo.context [1; 1; 2]) [1; 1; 2] Demo.quiet
      = Returns acc w' /\
    map ScoredPod_Pod (toScoredPods map_to_list acc) ≡ₚ remove_dups [1; 1; 2] /\
    length (toScoredPods map_to_list acc) = 2%nat.
Proof.
  destruct (scoredPods_cover_candidates map_to_list map_to_list_entries Demo.plainProfile
              (Demo.context [1; 1; 2]) [1; 1; 2] Demo.quiet)
    as (acc & w' & Hrun & _ & _ & _ & Hperm).
  exists acc, w'. split; [exact Hrun|].
  assert (map ScoredPod_Pod (toScoredPods map_to_list acc) ≡ₚ remove_dups [1; 1; 2]) as Hp.
  { apply Hperm. intros scores weight pod Hin. simpl in Hin.
    apply list_elem_of_singleton in Hin. injection Hin as -> ->. apply flatScores_inside. }
  split; [exact Hp|].
  apply Permutation_length in Hp. by rewrite length_map in Hp.
Defined.

(** X4, witness: the plain profile keeps, scores and picks pods of the
    snapshot only. *)
Lemma RunCycle_target_in_snapshot_witness :
  TargetPod {| TargetPod := 2 |} ∈ PodsSnapshot (Demo.context [1; 2]).
Proof.
  eapply (RunCycle_target_in_snapshot map_to_list map_to_list_entries Demo.plainProfile
            (Demo.context [1; 2]) Demo.quiet {| TargetPod := 2 |}).
  - vm_compute. reflexivity.
  - intros f pods0 st Hin. apply list_elem_of_singleton in Hin. subst f. apply keepAll_part.
  - intros scorer pods0 st0 pod Hin. apply list_elem_of_singleton in Hin. subst scorer.
    apply flatScores_inside.
  - intros pk scoredPods st res [= <-]. apply maxPicker_among.
Defined.

(** X7, witness: a second picker after the picker "max", and a scorer
    without weight after it. *)
Lemma AddPlugins_first_refusal_witness :
  ((AddPlugins (NewSchedulerProfile : Demo.DProfile)
      ([PluginObject Demo.maxObject]
         ++ PluginWeightedScorer (NewWeightedScorer Demo.allRounderScorer 3)
         :: [PluginObject Demo.flatObject])).2
     = Some (errPickerAlreadySet "all-rounder" "max") /\
   picker (AddPlugins (NewSchedulerProfile : Demo.DProfile)
             ([PluginObject Demo.maxObject]
                ++ PluginWeightedScorer (NewWeightedScorer Demo.allRounderScorer 3)
                :: [PluginObject Demo.flatObject])).1
     = Some {| Picker_Name := "max"; Picker_Pick := Picker_Pick Demo.maxPicker |}) /\
  (AddPlugins (NewSchedulerProfile : Demo.DProfile)
     ([PluginObject Demo.maxObject] ++ PluginObject Demo.flatObject :: [])).2
    = Some (errScorerWithoutWeight "flat").
Proof.
  split.
  - destruct (AddPlugins_first_refusal (NewSchedulerProfile : Demo.DProfile)
                [PluginObject Demo.maxObject]
                (PluginWeightedScorer (NewWeightedScorer Demo.allRounderScorer 3))
                [PluginObject Demo.flatObject] eq_refl) as [_ Hpicker].
    apply (Hpicker eq_refl
             {| Picker_Name := "all-rounder"; Picker_Pick := Picker_Pick Demo.maxPicker |}
             {| Picker_Name := "max"; Picker_Pick := Picker_Pick Demo.maxPicker |});
      reflexivity.
  - destruct (AddPlugins_first_refusal (NewSchedulerProfile : Demo.DProfile)
                [PluginObject Demo.maxObject] (PluginObject Demo.flatObject) [] eq_refl)
      as [Hscorer _].
    by apply Hscorer.
Defined.

(** X8, witness: a call that returns results. *)
Lemma Schedule_return_shape_witness :
  (Some ({[ "default" := Some {| TargetPod := 2 |} ]} : gmap string (option (@Result nat)))
     = None /\ is_Some (None : option error)) \/
  (exists results : gmap string (option (@Result nat)),
     Some ({[ "default" := Some {| TargetPod := 2 |} ]} : gmap string (option (@Result nat)))
       = Some results /\ results <> ∅ /\ (None : option error) = None).
Proof.
  eapply (Schedule_return_shape map_to_list (fun pods => pods) (fun req => req) map_to_list
            2 (Demo.scheduler Demo.allOnce Demo.plainProfile) "req" Demo.quiet).
  vm_compute. reflexivity.
Defined.

(** X9, witness: the profile picker that picks all profiles once. *)
Lemma Schedule_single_pass_witness :
  verdictOf (Demo.schedule 2 (Demo.scheduler Demo.allOnce Demo.plainProfile) "req" Demo.quiet)
    <> Unfinished /\
  (forall fuel,
     Demo.schedule (2 + fuel) (Demo.scheduler Demo.allOnce Demo.plainProfile) "req" Demo.quiet =
     Demo.schedule 2 (Demo.scheduler Demo.allOnce Demo.plainProfile) "req" Demo.quiet).
Proof.
  destruct (Schedule_single_pass map_to_list (fun pods => pods) (fun req => req) map_to_list
              map_to_list_entries (Demo.scheduler Demo.allOnce Demo.plainProfile) "req"
              Demo.quiet) as (Hdone & Hfuel & _).
  - intros results st. apply allOnce_stops.
  - split; [exact Hdone|exact Hfuel].
Defined.

(** X13, witness: the only profile has no picker, and pods to pick from. *)
Lemma Schedule_panics_without_picker_witness :
  exists w2 : Demo.DWorld,
    RunCycle map_to_list Demo.bareProfile (entryContext (fun pods => pods) "req" Demo.quiet)
      (afterPick (Demo.scheduler Demo.allOnce Demo.bareProfile) "req" ∅ (entryWorld Demo.quiet))
      = Panics w2 /\
    Demo.schedule 1 (Demo.scheduler Demo.allOnce Demo.bareProfile) "req" Demo.quiet
      = Panics (record SchedulerE2ELatency w2).
Proof.
  eapply (Schedule_panics_without_picker map_to_list (fun pods => pods) (fun req => req)
            map_to_list map_to_list_entries 0 (Demo.scheduler Demo.allOnce Demo.bareProfile)
            "req" Demo.quiet "default" Demo.bareProfile [] [1; 2]).
  - vm_compute. reflexivity.
  - reflexivity.
  - vm_compute. reflexivity.
  - discriminate.
Defined.

(** X14, witness: the default configuration over the demo plugins. *)
Lemma default_profile_cycle_witness :
  exists (pods : list nat) (w1 : Demo.DWorld),
    runFilterPlugins
      (defaultProfile Demo.keepAll Demo.keepAll Demo.keepAll Demo.keepAll Demo.keepAll
         Demo.firstOf Demo.maxPicker) (Demo.context [1; 2]) Demo.quiet = Returns pods w1 /\
    pods = [1; 2] /\
    (pods <> [] ->
     map ScoredPod_Pod (toScoredPods map_to_list (initScores pods)) ≡ₚ remove_dups pods).
Proof.
  destruct (default_profile_cycle map_to_list map_to_list_entries
              Demo.keepAll Demo.keepAll Demo.keepAll Demo.keepAll Demo.keepAll
              Demo.firstOf Demo.maxPicker Demo.allOnce (Demo.context [1; 2]) Demo.quiet)
    as (_ & pods & w1 & Hfilters & _ & Hpods).
  exists pods, w1. split; [exact Hfilters|]. split.
  - vm_compute in Hfilters. by injection Hfilters as <- _.
  - intros Hne. by destruct (Hpods Hne) as (_ & _ & Hperm & _).
Defined.
